(** * drag_mouse: the motions-file parser and the single-hold executor

    A shallow embedding of [drag_mouse.py].

    - Text is modelled as [string] over ASCII characters: the motions file
      is read as text, and every Python string method used by the program
      ([strip], [split], [upper], [lower], [startswith], the [re] classes
      [\s] and [\d], [int] and [float]) is given here with its behaviour on
      ASCII code points.  Characters outside ASCII are not part of the
      model: a theorem that decides what the program does with a line
      from these definitions alone assumes that the line is ASCII text
      ([isascii]).
    - Python's [float] is IEEE binary64.  Values are [spec_float]s and a
      decimal literal is converted with correct rounding (nearest, ties to
      even), overflowing to an infinity, as [float()] does.
    - Python's [int] is unbounded and is modelled by [Z].  The optional
      interpreter guard on the number of digits accepted by [int()] is an
      interpreter setting, not part of the program, and is left out of
      [int_of_string]: a theorem that converts a coordinate assumes that
      it is within the default limit ([within_int_limit]).
    - The executor drives an external backend (pyautogui, [time.sleep]).
      Its calls are recorded in a trace together with their outcome; which
      calls raise is decided by an arbitrary environment.
    - The program [main] is given the namespace that [argparse] returns
      and what reading the motions file gives: its content, or the
      exception raised. *)

From Stdlib Require Import ZArith List String Ascii Bool Lia.
From Stdlib Require Import Floats.SpecFloat.
From Stdlib Require Import Numbers.DecimalString Numbers.DecimalPos.
Import ListNotations.

Local Open Scope string_scope.
Local Open Scope Z_scope.

(** ** Python string methods on ASCII text *)

Module PyStr.

(** [str.isspace] on one ASCII character: TAB, LF, VT, FF, CR, the four
    separators FS, GS, RS, US, and SPACE.  [str.strip], [str.split] and the
    regular-expression class [\s] all use this set on ASCII text; outside
    ASCII Python has more white space (NEL, NBSP, ...), which this
    predicate does not know. *)
Definition isspace (c : ascii) : bool :=
  let n := nat_of_ascii c in
  ((9 <=? n)%nat && (n <=? 13)%nat) || ((28 <=? n)%nat && (n <=? 32)%nat).

(** The C-level [Py_ISSPACE] used by [int()] and [float()] when they trim
    their argument: TAB, LF, VT, FF, CR and SPACE. *)
Definition c_isspace (c : ascii) : bool :=
  let n := nat_of_ascii c in
  ((9 <=? n)%nat && (n <=? 13)%nat) || (n =? 32)%nat.

(** ASCII decimal digit: [\d] and [[0-9]] on ASCII text.  Outside ASCII
    [\d] and [int()] know more decimal digits, [[0-9]] does not. *)
Definition isdigit (c : ascii) : bool :=
  let n := nat_of_ascii c in (48 <=? n)%nat && (n <=? 57)%nat.

(** [str.upper] and [str.lower] on one ASCII character.  Outside ASCII
    Python has more letters, some of which become ASCII letters. *)
Definition upper_char (c : ascii) : ascii :=
  let n := nat_of_ascii c in
  if (97 <=? n)%nat && (n <=? 122)%nat then ascii_of_nat (n - 32) else c.

Definition lower_char (c : ascii) : ascii :=
  let n := nat_of_ascii c in
  if (65 <=? n)%nat && (n <=? 90)%nat then ascii_of_nat (n + 32) else c.

Fixpoint smap (f : ascii -> ascii) (s : string) : string :=
  match s with
  | EmptyString => EmptyString
  | String c s' => String (f c) (smap f s')
  end.

(** [s.upper()] and [s.lower()]. *)
Definition upper (s : string) : string := smap upper_char s.
Definition lower (s : string) : string := smap lower_char s.

(** [s.startswith(p)]. *)
Fixpoint startswith (s p : string) : bool :=
  match p, s with
  | EmptyString, _ => true
  | String a p', String b s' => Ascii.eqb a b && startswith s' p'
  | String _ _, EmptyString => false
  end.

Fixpoint forallb_str (p : ascii -> bool) (s : string) : bool :=
  match s with
  | EmptyString => true
  | String c s' => p c && forallb_str p s'
  end.

Fixpoint lstrip_by (sp : ascii -> bool) (s : string) : string :=
  match s with
  | EmptyString => EmptyString
  | String c s' => if sp c then lstrip_by sp s' else s
  end.

Fixpoint rstrip_by (sp : ascii -> bool) (s : string) : string :=
  match s with
  | EmptyString => EmptyString
  | String c s' =>
      match rstrip_by sp s' with
      | EmptyString => if sp c then EmptyString else String c EmptyString
      | r => String c r
      end
  end.

(** [s.strip()]: leading and trailing whitespace removed. *)
Definition strip (s : string) : string := rstrip_by isspace (lstrip_by isspace s).

(** [s.split()]: the maximal runs of non-whitespace characters, in order.
    [tok] is the run being read. *)
Fixpoint split_from (tok : string) (s : string) : list string :=
  match s with
  | EmptyString => match tok with EmptyString => [] | _ => [tok] end
  | String c s' =>
      if isspace c
      then match tok with
           | EmptyString => split_from EmptyString s'
           | _ => tok :: split_from EmptyString s'
           end
      else split_from (tok ++ String c EmptyString) s'
  end.

Definition split (s : string) : list string := split_from EmptyString s.

(** [sub in s]. *)
Fixpoint contains (s sub : string) : bool :=
  startswith s sub ||
  match s with
  | EmptyString => false
  | String _ s' => contains s' sub
  end.

(** [str(n)] for a non-negative integer, as used by the f-strings. *)
Definition str_of_nat (n : nat) : string := NilEmpty.string_of_uint (Nat.to_uint n).

(** The longest prefix of characters satisfying [p], and what follows. *)
Fixpoint span (p : ascii -> bool) (s : string) : string * string :=
  match s with
  | EmptyString => (EmptyString, EmptyString)
  | String c s' =>
      if p c then let '(a, b) := span p s' in (String c a, b)
      else (EmptyString, s)
  end.

(** First [n] characters. *)
Fixpoint take (n : nat) (s : string) : string :=
  match n, s with
  | S n', String c s' => String c (take n' s')
  | _, _ => EmptyString
  end.

End PyStr.
Import PyStr.

(** ** Python numbers *)

Module PyNum.

Definition float := spec_float.

(** binary64 *)
Definition prec : Z := 53.
Definition emax : Z := 1024.

Definition pos_zero : float := S754_zero false.

(** The binary64 number nearest to [num / den] (ties to even), with the
    given sign; [num >= 0], [den > 0]. *)
Definition round_ratio (neg : bool) (num den : Z) : float :=
  match num with
  | Z0 => S754_zero neg
  | _ =>
      let '(q, e, l) := SFdiv_core_binary prec emax num 0 den 0 in
      binary_round_aux prec emax neg q e l
  end.

(** The binary64 number nearest to [m * 10 ^ e10]. *)
Definition float_of_decimal (neg : bool) (m e10 : Z) : float :=
  if 0 <=? e10 then round_ratio neg (m * 10 ^ e10) 1
  else round_ratio neg m (10 ^ (- e10)).

Definition digit_val (c : ascii) : Z := Z.of_nat (nat_of_ascii c) - 48.

Fixpoint digits_val (acc : Z) (s : string) : Z :=
  match s with
  | EmptyString => acc
  | String c s' => digits_val (10 * acc + digit_val c) s'
  end.

Definition is_underscore (prev : option ascii) : bool :=
  match prev with
  | Some p => Ascii.eqb p "_"
  | None => false
  end.

(** The underscore rule of [float()], which is also that of [int()]: an
    underscore may only stand between two digits.  Returns the text
    without underscores, or [None] when the rule is broken.  [prev] is the
    previous character. *)
Fixpoint drop_underscores (prev : option ascii) (s : string) : option string :=
  match s with
  | EmptyString => if is_underscore prev then None else Some EmptyString
  | String c s' =>
      if Ascii.eqb c "_"
      then match prev with
           | Some p => if isdigit p then drop_underscores (Some c) s' else None
           | None => None
           end
      else if is_underscore prev && negb (isdigit c) then None
      else option_map (String c) (drop_underscores (Some c) s')
  end.

(** An optional sign. *)
Definition split_sign (s : string) : bool * string :=
  match s with
  | String c r =>
      if Ascii.eqb c "-" then (true, r)
      else if Ascii.eqb c "+" then (false, r)
      else (false, s)
  | EmptyString => (false, s)
  end.

(** The decimal grammar of the C conversion behind [float()], which must
    consume the whole text: sign, digits with an optional point (at least
    one digit in all), optional exponent with at least one digit. *)
Definition strtod (s : string) : option float :=
  let '(neg, s1) := split_sign s in
  let '(ip, s2) := span isdigit s1 in
  let '(fp, s3) := match s2 with
                   | String c r =>
                       if Ascii.eqb c "." then span isdigit r
                       else (EmptyString, s2)
                   | EmptyString => (EmptyString, s2)
                   end in
  if (String.length ip + String.length fp =? 0)%nat then None
  else
    let ex :=
      match s3 with
      | EmptyString => Some 0
      | String c r =>
          if Ascii.eqb c "e" || Ascii.eqb c "E" then
            let '(eneg, r1) := split_sign r in
            let '(ed, r2) := span isdigit r1 in
            match ed, r2 with
            | String _ _, EmptyString =>
                Some (if eneg then - digits_val 0 ed else digits_val 0 ed)
            | _, _ => None
            end
          else None
      end in
    match ex with
    | Some e =>
        Some (float_of_decimal neg (digits_val 0 (ip ++ fp))
                (e - Z.of_nat (String.length fp)))
    | None => None
    end.

(** [inf], [infinity] and [nan], in any case, with an optional sign. *)
Definition parse_inf_or_nan (s : string) : option float :=
  let '(neg, r) := split_sign s in
  let l := lower r in
  if String.eqb l "inf" || String.eqb l "infinity" then Some (S754_infinity neg)
  else if String.eqb l "nan" then Some S754_nan
  else None.

(** [float(s)] for a string [s]; [None] stands for [ValueError]. *)
Definition float_of_string (s : string) : option float :=
  match drop_underscores None s with
  | None => None
  | Some s' =>
      let t := rstrip_by c_isspace (lstrip_by c_isspace s') in
      match strtod t with
      | Some v => Some v
      | None => parse_inf_or_nan t
      end
  end.

(** The digits of an integer literal: at least one. *)
Definition int_digits (s : string) : option Z :=
  match s with
  | EmptyString => None
  | _ => if forallb_str isdigit s then Some (digits_val 0 s) else None
  end.

(** [int(s)] for a string [s] (base 10); [None] stands for [ValueError].
    The interpreter's limit on the number of digits is not applied here:
    see [within_int_limit]. *)
Definition int_of_string (s : string) : option Z :=
  match drop_underscores None s with
  | None => None
  | Some s' =>
      let t := rstrip_by c_isspace (lstrip_by c_isspace s') in
      let '(neg, d) := split_sign t in
      match int_digits d with
      | Some n => Some (if neg then - n else n)
      | None => None
      end
  end.

(** [a > b] on floats: false as soon as one side is NaN. *)
Definition float_gt (a b : float) : bool := SFltb b a.

End PyNum.
Import PyNum.

(** ** Data model *)

(** A step of the motions file: [("DRAG", (x1, y1, x2, y2, dur))] or
    [("SLEEP", seconds)]. *)
Inductive step : Type :=
| Drag (x1 y1 x2 y2 : Z) (dur : option float)
| Sleep (seconds : float).

(** The exceptions that occur in the program. *)
Inductive exn : Type :=
| ValueError (msg : string)
| FailSafeException            (* pyautogui: the pointer is in a corner *)
| KeyboardInterrupt            (* Ctrl+C *)
| BackendError (msg : string). (* any other exception of a backend call *)

(** ** Regular expressions, as far as [drag_line_re] needs them *)

Module Re.

Inductive cclass : Type :=
| cls_space   (* \s *)
| cls_digit   (* \d *)
| cls_09.     (* [0-9] *)

Definition in_class (cl : cclass) (c : ascii) : bool :=
  match cl with
  | cls_space => isspace c
  | cls_digit => isdigit c
  | cls_09 => isdigit c
  end.

(** Every [*] and [+] of [drag_line_re] is applied to a character class. *)
Inductive regex : Type :=
| Lit (c : ascii)
| Star (cl : cclass)
| Plus (cl : cclass)
| Opt (r : regex)
| Cat (r1 r2 : regex)
| Group (n : nat) (r : regex)
| Eos.                          (* $ *)

Definition captures := list (nat * string).

(** Greedy repetition of a class: the longest run first, then shorter
    ones, until the continuation [k] succeeds. *)
Fixpoint star (cl : cclass) (s : string) (k : string -> option captures)
  : option captures :=
  match s with
  | String c s' =>
      if in_class cl c
      then match star cl s' k with
           | Some r => Some r
           | None => k s
           end
      else k s
  | EmptyString => k s
  end.

(** Backtracking matcher.  [s] is the text still to be read, [caps] the
    groups captured so far and [k] what remains to be matched; the first
    success in the order of the alternatives is returned. *)
Fixpoint run (r : regex) (s : string) (caps : captures)
    (k : string -> captures -> option captures) : option captures :=
  match r with
  | Lit c =>
      match s with
      | String c' s' => if Ascii.eqb c c' then k s' caps else None
      | EmptyString => None
      end
  | Star cl => star cl s (fun s' => k s' caps)
  | Plus cl =>
      match s with
      | String c s' =>
          if in_class cl c then star cl s' (fun s'' => k s'' caps) else None
      | EmptyString => None
      end
  | Opt r' =>
      match run r' s caps k with
      | Some x => Some x
      | None => k s caps
      end
  | Cat r1 r2 => run r1 s caps (fun s' caps' => run r2 s' caps' k)
  | Group n r' =>
      run r' s caps
        (fun s' caps' =>
           k s' ((n, take (String.length s - String.length s') s) :: caps'))
  | Eos =>
      (* the end of the text, or just before a final line feed *)
      match s with
      | EmptyString => k s caps
      | String "010" EmptyString => k s caps
      | _ => None
      end
  end.

(** [r.match(s)]: anchored at the start of [s]. *)
Definition re_match (r : regex) (s : string) : option captures :=
  run r s [] (fun _ caps => Some caps).

(** [m.group(n)]: [None] for a group that did not take part. *)
Fixpoint group (n : nat) (caps : captures) : option string :=
  match caps with
  | [] => None
  | (i, v) :: rest => if Nat.eqb i n then Some v else group n rest
  end.

(** [r] followed by the regular expressions of [rs], in order. *)
Fixpoint seq (r : regex) (rs : list regex) : regex :=
  match rs with
  | [] => r
  | r' :: rs' => Cat r (seq r' rs')
  end.

End Re.
Import Re.

(** ** The parser *)

Definition ws : regex := Star cls_space.
Definition int_re (n : nat) : regex :=
  Group n (Cat (Opt (Lit "-")) (Plus cls_digit)).

(** [^\s*(-?\d+)\s*,\s*(-?\d+)\s*->\s*(-?\d+)\s*,\s*(-?\d+)
     (?:\s*,\s*([0-9]*\.?[0-9]+))?\s*$]; the leading [^] is the anchoring
    of [re_match]. *)
Definition drag_line_re : regex :=
  seq ws
      [ int_re 1; ws; Lit ","; ws; int_re 2; ws; Lit "-"; Lit ">"; ws;
        int_re 3; ws; Lit ","; ws; int_re 4;
        Opt (seq ws [ Lit ","; ws;
                      Group 5 (seq (Star cls_09) [Opt (Lit "."); Plus cls_09]) ]);
        ws; Eos ].

Definition LF : ascii := "010"%char.
Definition CR : ascii := "013"%char.

(** The lines of a text file as iteration over the file yields them: each
    line keeps its line feed, and CR LF and CR alone are read as LF. *)
Fixpoint readlines_from (cur : string) (s : string) : list string :=
  match s with
  | EmptyString => match cur with EmptyString => [] | _ => [cur] end
  | String c s' =>
      if Ascii.eqb c CR then
        match s' with
        | String "010" s'' => (cur ++ String LF "") :: readlines_from "" s''
        | _ => (cur ++ String LF "") :: readlines_from "" s'
        end
      else if Ascii.eqb c LF then (cur ++ String LF "") :: readlines_from "" s'
      else readlines_from (cur ++ String c "") s'
  end.

Definition readlines (content : string) : list string := readlines_from "" content.

(** [repr(s)] for a text without quotes, backslashes or control characters. *)
Definition repr (s : string) : string := "'" ++ s ++ "'".

Definition msg_prefix (path : string) (idx : nat) : string :=
  path ++ ":" ++ str_of_nat idx ++ ": ".

Definition msg_sleep_arity (path : string) (idx : nat) (line : string) : string :=
  msg_prefix path idx ++ "SLEEP requires one numeric value (seconds). Got: " ++ line.

Definition msg_sleep_seconds (path : string) (idx : nat) (tok : string) : string :=
  msg_prefix path idx ++ "Invalid SLEEP seconds: " ++ tok.

Definition msg_invalid_line (path : string) (idx : nat) (line : string) : string :=
  msg_prefix path idx ++ "Invalid line. Expected 'x1,y1 -> x2,y2[,duration]'. Got: " ++ line.

Definition msg_int (s : string) : string :=
  "invalid literal for int() with base 10: " ++ repr s.

Definition msg_float (s : string) : string :=
  "could not convert string to float: " ++ repr s.

(** What one line of the file does to the loop of [parse_file]. *)
Inductive line_result : Type :=
| Skip                 (* continue without a step *)
| Emit (s : step)      (* steps.append(s) *)
| Raise (e : exn).

(** [int(m.group(n))] for one of the first four groups. *)
Definition int_group (n : nat) (m : captures) : exn + Z :=
  let g := match group n m with Some g => g | None => "" end in
  match int_of_string g with
  | Some z => inr z
  | None => inl (ValueError (msg_int g))
  end.

(** The body of the loop of [parse_file] for line number [idx]. *)
Definition parse_line (path : string) (idx : nat) (raw : string) : line_result :=
  let line := strip raw in
  if String.eqb line "" || startswith line "#" then Skip
  else if startswith (upper line) "SLEEP" then
    let parts := split line in
    if negb (List.length parts =? 2)%nat then
      Raise (ValueError (msg_sleep_arity path idx line))
    else
      let tok := nth 1 parts "" in
      match float_of_string tok with
      | None => Raise (ValueError (msg_sleep_seconds path idx tok))
      | Some seconds => Emit (Sleep seconds)
      end
  else
    match re_match drag_line_re line with
    | None => Raise (ValueError (msg_invalid_line path idx line))
    | Some m =>
        match int_group 1 m, int_group 2 m, int_group 3 m, int_group 4 m with
        | inr x1, inr y1, inr x2, inr y2 =>
            match group 5 m with
            | None => Emit (Drag x1 y1 x2 y2 None)
            | Some dur_str =>
                match float_of_string dur_str with
                | Some dur => Emit (Drag x1 y1 x2 y2 (Some dur))
                | None => Raise (ValueError (msg_float dur_str))
                end
            end
        | inl e, _, _, _ => Raise e
        | _, inl e, _, _ => Raise e
        | _, _, inl e, _ => Raise e
        | _, _, _, inl e => Raise e
        end
    end.

(** The loop of [parse_file] over the lines from number [idx] on. *)
Fixpoint parse_lines (path : string) (idx : nat) (lines : list string)
    (steps : list step) : exn + list step :=
  match lines with
  | [] => inr steps
  | raw :: rest =>
      match parse_line path idx raw with
      | Skip => parse_lines path (S idx) rest steps
      | Emit s => parse_lines path (S idx) rest (steps ++ [s])
      | Raise e => inl e
      end
  end.

(** [parse_file(path)], for a file that holds [content]. *)
Definition parse_file (path : string) (content : string) : exn + list step :=
  parse_lines path 1 (readlines content) [].

(** ** The executor *)

Module Exec.

Local Open Scope list_scope.

Inductive tween : Type := easeInOutQuad.

(** The backend calls of [run_single_hold], with the arguments the source
    passes; [None] is an argument left to the backend's default. *)
Inductive call : Type :=
| moveTo (x y : Z) (duration : option float) (tw : option tween)
| mouseDown (button : string)
| mouseUp (button : string)
| sleep (seconds : float).

(** The lines [run_single_hold] prints, with the values they are built
    from. *)
Inductive message : Type :=
| NoDragSteps                                   (* No DRAG steps found in file. *)
| MovingToStart (x1 y1 : Z) (btn : string)
| Sleeping (seconds : float)                    (* [SLEEP] ... *)
| Warn (sx sy cx cy : Z)                        (* [WARN] Segment start ... *)
| Moving (seg_index : nat) (sx sy ex ey : Z) (duration : float)
| Releasing.                                    (* Releasing mouse button. *)

(** What an observer sees: a printed line, or a backend call together with
    the exception it raised, if any. *)
Inductive event : Type :=
| Printed (m : message)
| Called (c : call) (raised : option exn).

(** The environment: given what happened so far, does this call raise?
    Failsafe aborts and interrupts are exceptions raised by a call. *)
Definition backend := list event -> call -> option exn.

(** A computation reads the backend and the history, produces the events
    it adds, and either raises or returns. *)
Definition M (A : Type) : Type := backend -> list event -> list event * (exn + A).

Definition ret {A} (a : A) : M A := fun _ _ => ([], inr a).

Definition bind {A B} (m : M A) (f : A -> M B) : M B :=
  fun env h =>
    let '(t1, r1) := m env h in
    match r1 with
    | inl e => (t1, inl e)
    | inr a => let '(t2, r2) := f a env (h ++ t1) in (t1 ++ t2, r2)
    end.

Definition print (m : message) : M unit := fun _ _ => ([Printed m], inr tt).

Definition invoke (c : call) : M unit :=
  fun env h =>
    let r := env h c in
    ([Called c r], match r with Some e => inl e | None => inr tt end).

(** [try: body finally: fin].  The finaliser runs on every exit of the
    body; if it raises, its exception is the one that propagates. *)
Definition try_finally {A} (body : M A) (fin : M unit) : M A :=
  fun env h =>
    let '(t1, r1) := body env h in
    let '(t2, r2) := fin env (h ++ t1) in
    (t1 ++ t2, match r2 with inl e => inl e | inr _ => r1 end).

Definition when (b : bool) (m : M unit) : M unit := if b then m else ret tt.

Notation "m1 ;; m2" := (bind m1 (fun _ => m2)) (at level 61, right associativity).
Notation "x <- m1 ;; m2" := (bind m1 (fun x => m2))
  (at level 61, m1 at next level, right associativity).

Section Run.

Variables (default_duration : float) (between_delay : float).

(** [next((p for (k, p) in steps if k == "DRAG"), None)] *)
Fixpoint first_drag (steps : list step) : option (Z * Z * Z * Z * option float) :=
  match steps with
  | [] => None
  | Drag x1 y1 x2 y2 dur :: _ => Some (x1, y1, x2, y2, dur)
  | Sleep _ :: rest => first_drag rest
  end.

(** [btn = button.lower()], replaced by ["left"] when it is not a button. *)
Definition normalize_button (button : string) : string :=
  let btn := lower button in
  if existsb (String.eqb btn) ["left"; "right"; "middle"] then btn else "left".

(** The tracked position and the segment counter. *)
Definition cursor : Type := (Z * Z) * nat.

Definition pos_neq (a b : Z * Z) : bool :=
  negb ((fst a =? fst b) && (snd a =? snd b)).

(** One iteration of the [for] loop. *)
Definition exec_step (st : cursor) (s : step) : M cursor :=
  let '(cur, seg_index) := st in
  match s with
  | Sleep seconds =>
      print (Sleeping seconds) ;;
      invoke (sleep seconds) ;;
      ret st
  | Drag sx sy ex ey dur =>
      let duration := match dur with Some d => d | None => default_duration end in
      when (pos_neq (sx, sy) cur)
        (print (Warn sx sy (fst cur) (snd cur)) ;;
         invoke (moveTo sx sy (Some pos_zero) None)) ;;
      print (Moving (S seg_index) sx sy ex ey duration) ;;
      invoke (moveTo ex ey (Some duration) (Some easeInOutQuad)) ;;
      when (float_gt between_delay pos_zero) (invoke (sleep between_delay)) ;;
      ret ((ex, ey), S seg_index)
  end.

Fixpoint loop (steps : list step) (st : cursor) : M unit :=
  match steps with
  | [] => ret tt
  | s :: rest => st' <- exec_step st s ;; loop rest st'
  end.

Definition run_single_hold (steps : list step) (button : string) : M unit :=
  match first_drag steps with
  | None => print NoDragSteps
  | Some (x1, y1, _, _, _) =>
      let btn := normalize_button button in
      print (MovingToStart x1 y1 btn) ;;
      invoke (moveTo x1 y1 None None) ;;
      invoke (mouseDown btn) ;;
      try_finally
        (loop steps ((x1, y1), 0%nat))
        (print Releasing ;; invoke (mouseUp btn))
  end.

End Run.

(** A run without failsafe abort, interrupt or any other exception. *)
Definition undisturbed : backend := fun _ _ => None.

(** The backend calls of a trace, in order. *)
Fixpoint calls (t : list event) : list call :=
  match t with
  | [] => []
  | Called c _ :: t' => c :: calls t'
  | Printed _ :: t' => calls t'
  end.

Definition is_release (e : event) : bool :=
  match e with Called (mouseUp _) _ => true | _ => false end.

Definition is_press (e : event) : bool :=
  match e with Called (mouseDown _) _ => true | _ => false end.

Definition is_warning (e : event) : bool :=
  match e with Printed (Warn _ _ _ _) => true | _ => false end.

(** The button went down: [mouseDown] was called and returned. *)
Definition pressed (e : event) : bool :=
  match e with Called (mouseDown _) None => true | _ => false end.

Definition count (p : event -> bool) (t : list event) : nat :=
  List.length (filter p t).

End Exec.
Import Exec.

(** * The grammar of a drag line *)

Module Grammar.

(** The first character, if any, satisfies [p]. *)
Definition head_is (p : ascii -> bool) (s : string) : bool :=
  match s with
  | EmptyString => true
  | String c _ => p c
  end.

Definition ink (c : ascii) : bool := negb (isspace c).

Definition is_ws (w : string) : bool := forallb_str isspace w.

Definition is_digits (d : string) : bool := forallb_str isdigit d.

(** One digit or more. *)
Definition is_digits1 (d : string) : bool :=
  match d with
  | EmptyString => false
  | _ => forallb_str isdigit d
  end.

(** [<int>]: digits, possibly after a minus sign. *)
Definition is_int_lit (g : string) : bool :=
  match g with
  | String c d => if Ascii.eqb c "-" then is_digits1 d else is_digits1 g
  | EmptyString => false
  end.

(** [<real>]: digits, or digits (possibly none) then a point then digits. *)
Inductive real_lit : string -> Prop :=
| real_plain d : is_digits1 d = true -> real_lit d
| real_point a b :
    is_digits a = true -> is_digits1 b = true -> real_lit (a ++ "." ++ b).

(** What follows the fourth integer: white space, or a comma and the
    duration with white space around. *)
Inductive tail_shape : string -> option string -> Prop :=
| tail_none w : is_ws w = true -> tail_shape w None
| tail_some w7 w8 d w9 :
    is_ws w7 = true -> is_ws w8 = true -> is_ws w9 = true -> real_lit d ->
    tail_shape (w7 ++ "," ++ w8 ++ d ++ w9) (Some d).

(** [<int> , <int> -> <int> , <int> [ , <real> ]] with white space allowed
    around every token; the tokens are the last five arguments. *)
Inductive drag_shape
  : string -> string -> string -> string -> string -> option string -> Prop :=
| drag_shape_intro w0 x1 w1 w2 y1 w3 w4 x2 w5 w6 y2 tail od :
    is_ws w0 = true -> is_ws w1 = true -> is_ws w2 = true -> is_ws w3 = true ->
    is_ws w4 = true -> is_ws w5 = true -> is_ws w6 = true ->
    is_int_lit x1 = true -> is_int_lit y1 = true ->
    is_int_lit x2 = true -> is_int_lit y2 = true ->
    tail_shape tail od ->
    drag_shape
      (w0 ++ x1 ++ w1 ++ "," ++ w2 ++ y1 ++ w3 ++ "->" ++ w4 ++ x2 ++ w5 ++ ","
          ++ w6 ++ y2 ++ tail)
      x1 y1 x2 y2 od.

(** The integer an [<int>] token denotes. *)
Definition int_value (g : string) : Z :=
  match g with
  | String c d => if Ascii.eqb c "-" then - digits_val 0 d else digits_val 0 g
  | EmptyString => 0
  end.

(** The float a [<real>] token denotes: the binary64 number nearest to its
    decimal value. *)
Definition real_value (d : string) : float :=
  let '(a, r) := span isdigit d in
  match r with
  | EmptyString => float_of_decimal false (digits_val 0 a) 0
  | String _ b =>
      float_of_decimal false (digits_val 0 (a ++ b)) (- Z.of_nat (String.length b))
  end.

(** Not NaN and sign bit clear: [+0], a positive finite number or [+inf]. *)
Definition float_nonneg (v : float) : bool :=
  match v with
  | S754_zero false => true
  | S754_finite false _ _ => true
  | S754_infinity false => true
  | _ => false
  end.

Definition float_finite (v : float) : bool :=
  match v with
  | S754_zero _ => true
  | S754_finite _ _ _ => true
  | _ => false
  end.

(** [c] is the letter [up] or the letter [low]. *)
Definition letter (up low c : ascii) : bool := Ascii.eqb c up || Ascii.eqb c low.

(** The line begins with the keyword SLEEP, in any mix of cases. *)
Definition has_sleep_keyword (line : string) : bool :=
  match line with
  | String c1 (String c2 (String c3 (String c4 (String c5 _)))) =>
      letter "S" "s" c1 && letter "L" "l" c2 && letter "E" "e" c3 &&
      letter "E" "e" c4 && letter "P" "p" c5
  | _ => false
  end.

(** The groups of a match with these tokens. *)
Definition caps_of (x1 y1 x2 y2 : string) (od : option string) : captures :=
  (match od with Some d => [(5%nat, d)] | None => [] end
   ++ [(4%nat, y2); (3%nat, x2); (2%nat, y1); (1%nat, x1)])%list.

(** Declarative reading of the regular expressions: [matches r s s' c c']
    when [r] can read, from the text [s], a prefix that leaves [s'], taking
    the groups from [c] to [c']. *)
Inductive matches : regex -> string -> string -> captures -> captures -> Prop :=
| m_lit c s caps : matches (Lit c) (String c s) s caps caps
| m_star cl w s caps :
    forallb_str (in_class cl) w = true -> matches (Star cl) (w ++ s) s caps caps
| m_plus cl c w s caps :
    in_class cl c = true -> forallb_str (in_class cl) w = true ->
    matches (Plus cl) (String c (w ++ s)) s caps caps
| m_opt_some r s s' c c' : matches r s s' c c' -> matches (Opt r) s s' c c'
| m_opt_none r s c : matches (Opt r) s s c c
| m_cat r1 r2 s s1 s2 c c1 c2 :
    matches r1 s s1 c c1 -> matches r2 s1 s2 c1 c2 -> matches (Cat r1 r2) s s2 c c2
| m_group n r s s' c c' :
    matches r s s' c c' ->
    matches (Group n r) s s' c
      ((n, take (String.length s - String.length s') s) :: c')
| m_eos_end c : matches Eos "" "" c c
| m_eos_lf c : matches Eos (String LF "") (String LF "") c c.

Definition outside (cl : cclass) (c : ascii) : bool := negb (in_class cl c).

(** The characters of the tokens. *)
Definition int_char (c : ascii) : bool := isdigit c || Ascii.eqb c "-".
Definition real_char (c : ascii) : bool := isdigit c || Ascii.eqb c ".".

Definition plain (c : ascii) : bool := negb (Ascii.eqb c "_") && negb (c_isspace c).

Definition duration_re : regex :=
  seq ws [Lit ","; ws; Group 5 (seq (Star cls_09) [Opt (Lit "."); Plus cls_09])].

Definition finish : string -> captures -> option captures :=
  fun s caps => run (Cat ws Eos) s caps (fun _ c => Some c).

(** What the SLEEP branch does with a trimmed line. *)
Definition sleep_outcome (path : string) (idx : nat) (line : string) : line_result :=
  match split line with
  | [_; tok] =>
      match float_of_string tok with
      | Some seconds => Emit (Sleep seconds)
      | None => Raise (ValueError (msg_sleep_seconds path idx tok))
      end
  | _ => Raise (ValueError (msg_sleep_arity path idx line))
  end.

(** What the drag branch does with a trimmed line. *)
Definition drag_outcome (path : string) (idx : nat) (line : string) : line_result :=
  match re_match drag_line_re line with
  | None => Raise (ValueError (msg_invalid_line path idx line))
  | Some m =>
      match int_group 1 m, int_group 2 m, int_group 3 m, int_group 4 m with
      | inr x1, inr y1, inr x2, inr y2 =>
          match group 5 m with
          | None => Emit (Drag x1 y1 x2 y2 None)
          | Some dur_str =>
              match float_of_string dur_str with
              | Some dur => Emit (Drag x1 y1 x2 y2 (Some dur))
              | None => Raise (ValueError (msg_float dur_str))
              end
          end
      | inl e, _, _, _ => Raise e
      | _, inl e, _, _ => Raise e
      | _, _, inl e, _ => Raise e
      | _, _, _, inl e => Raise e
      end
  end.

(** The step a line of the grammar stands for. *)
Definition drag_of (x1 y1 x2 y2 : string) (od : option string) : step :=
  Drag (int_value x1) (int_value y1) (int_value x2) (int_value y2)
       (option_map real_value od).

(** A Drag step whose duration, when present, is not negative and not NaN. *)
Definition step_ok (s : step) : Prop :=
  match s with
  | Drag _ _ _ _ (Some d) => float_nonneg d = true
  | _ => True
  end.

End Grammar.
Import Grammar.

(** * Vocabulary for the traces of the executor *)

Module Observe.

Local Open Scope list_scope.

(** [emits P m]: every event [m] adds satisfies [P], whatever happens. *)
Definition emits {A} (P : event -> Prop) (m : M A) : Prop :=
  forall env h, Forall P (fst (m env h)).

(** Inside the loop the button is neither pressed nor released. *)
Definition off_button (e : event) : Prop :=
  is_release e = false /\ is_press e = false.

Definition is_drag (s : step) : bool :=
  match s with Drag _ _ _ _ _ => true | Sleep _ => false end.

(** [button] is the word [name] in any mix of cases; the word is given by
    its letters, each as the capital and the small one. *)
Fixpoint spells (name : list (ascii * ascii)) (button : string) : bool :=
  match name, button with
  | [], EmptyString => true
  | (up, low) :: name', String c button' => letter up low c && spells name' button'
  | _, _ => false
  end.

Definition word_left : list (ascii * ascii) :=
  [("L", "l"); ("E", "e"); ("F", "f"); ("T", "t")]%char.

Definition word_right : list (ascii * ascii) :=
  [("R", "r"); ("I", "i"); ("G", "g"); ("H", "h"); ("T", "t")]%char.

Definition word_middle : list (ascii * ascii) :=
  [("M", "m"); ("I", "i"); ("D", "d"); ("D", "d"); ("L", "l"); ("E", "e")]%char.

(** The instantaneous reposition call of the loop. *)
Definition is_reposition (e : event) : bool :=
  match e with
  | Called (moveTo _ _ duration None) _ =>
      match duration with
      | Some (S754_zero false) => true
      | _ => false
      end
  | _ => false
  end.

(** A backend on which every timed move of the loop is interrupted: used
    to exercise an abort in the middle of the loop. *)
Definition interrupt_moves : backend :=
  fun _ c =>
    match c with
    | moveTo _ _ (Some _) (Some _) => Some KeyboardInterrupt
    | _ => None
    end.

(** A backend on which the pointer is already in a corner when the run
    starts: the first move raises the failsafe exception. *)
Definition corner_at_start : backend :=
  fun _ c =>
    match c with
    | moveTo _ _ None None => Some FailSafeException
    | _ => None
    end.

End Observe.
Import Observe.

(** * Values and inputs used in the examples *)

Module Examples.

Definition one_second : float := S754_finite false 4503599627370496 (-52).

Definition half : float := S754_finite false 4503599627370496 (-53).

Definition five : float := S754_finite false 5629499534213120 (-50).

Definition minus_five : float := S754_finite true 5629499534213120 (-50).

Definition tenth : float := S754_finite false 7205759403792794 (-56).

(** A duration of 310 digits: ten to the power 309. *)
Definition huge_duration : string :=
  "1000000000000000000000000000000000000000000000000000000000000000000000000000000000000000000000000000000000000000000000000000000000000000000000000000000000000000000000000000000000000000000000000000000000000000000000000000000000000000000000000000000000000000000000000000000000000000000000000000000000000000000000".

Definition example_content : string :=
  "-660,663 -> -961,494,1.0" ++ String LF "" ++
  "SLEEP 0.1" ++ String LF "" ++
  "-961,494 -> -1260,494,1.0".

Definition example_steps : list step :=
  [Drag (-660) 663 (-961) 494 (Some one_second);
   Sleep tenth;
   Drag (-961) 494 (-1260) 494 (Some one_second)].

End Examples.
Import Examples.

(** * Vocabulary for whole files *)

Module FileVocab.

(** A line that gives no step: blank, or a comment. *)
Definition is_skipped (raw : string) : bool :=
  String.eqb (strip raw) "" || startswith (strip raw) "#".

Definition carries_step (raw : string) : bool := negb (is_skipped raw).

(** [s.isascii()]: every character is below 128.  On such text the string
    methods of Python and the classes [\s] and [\d] are the ASCII ones of
    this file. *)
Definition isascii (s : string) : bool :=
  forallb_str (fun c => (nat_of_ascii c <? 128)%nat) s.

(** The default limit of the interpreter on the number of digits [int()]
    converts ([sys.int_info.default_max_str_digits]), and the tokens that
    are within it: the sign does not count. *)
Definition int_max_str_digits : nat := 4300.

Definition within_int_limit (g : string) : bool :=
  (String.length (snd (split_sign g)) <=? int_max_str_digits)%nat.

(** A line of text: no CR and no LF in it. *)
Definition no_break (l : string) : bool :=
  forallb_str (fun c => negb (Ascii.eqb c CR || Ascii.eqb c LF)) l.

(** The text of a file whose lines all end in [eol]. *)
Fixpoint text (eol : string) (lines : list string) : string :=
  match lines with
  | [] => ""
  | l :: rest => l ++ eol ++ text eol rest
  end.

(** What is read from the end of a file that has no line end: a line,
    unless nothing is left. *)
Definition unterminated (last : string) : list string :=
  match last with
  | EmptyString => []
  | _ => [last]
  end.

(** [str(z)] for an integer: decimal digits, after a minus sign when it is
    negative. *)
Definition str_of_Z (z : Z) : string := NilZero.string_of_int (Z.to_int z).

(** A Drag line in the format of the file, [x1,y1 -> x2,y2], written from
    four integers. *)
Definition drag_text (x1 y1 x2 y2 : Z) : string :=
  str_of_Z x1 ++ "," ++ str_of_Z y1 ++ " -> " ++ str_of_Z x2 ++ "," ++ str_of_Z y2.

End FileVocab.
Import FileVocab.

(** * Vocabulary for whole runs *)

Module TraceVocab.

Local Open Scope list_scope.

(** The exceptions raised by the calls of a trace, in order. *)
Definition raised (e : event) : list exn :=
  match e with
  | Called _ (Some x) => [x]
  | _ => []
  end.

Definition raises (t : list event) : list exn := flat_map raised t.

(** The first call that raised, when there is one, and what follows it. *)
Fixpoint raise_point (t : list event) : option (call * list event) :=
  match t with
  | [] => None
  | Called c (Some _) :: t' => Some (c, t')
  | _ :: t' => raise_point t'
  end.

(** A call of the loop: a move with a duration, or a pause.  The move to
    the start has no duration, and the press and the release are not
    moves. *)
Definition loop_call (c : call) : bool :=
  match c with
  | moveTo _ _ (Some _) _ => true
  | sleep _ => true
  | _ => false
  end.

Definition in_loop (e : event) : Prop :=
  match e with
  | Called c _ => loop_call c = true
  | Printed _ => True
  end.

(** The timed, eased moves of a trace: target and duration. *)
Definition eased (e : event) : list (Z * Z * float) :=
  match e with
  | Called (moveTo x y (Some d) (Some easeInOutQuad)) _ => [(x, y, d)]
  | _ => []
  end.

Definition eased_moves (t : list event) : list (Z * Z * float) := flat_map eased t.

(** The segments a step sequence asks for: the end point of each Drag
    step with its duration, the default one when the step has none. *)
Definition segment (default_duration : float) (s : step) : list (Z * Z * float) :=
  match s with
  | Drag _ _ ex ey dur =>
      [(ex, ey, match dur with Some d => d | None => default_duration end)]
  | Sleep _ => []
  end.

Definition segments (default_duration : float) (steps : list step)
  : list (Z * Z * float) :=
  flat_map (segment default_duration) steps.

(** The start and the end of each Drag step, in order. *)
Definition stretch (s : step) : list ((Z * Z) * (Z * Z)) :=
  match s with
  | Drag sx sy ex ey _ => [((sx, sy), (ex, ey))]
  | Sleep _ => []
  end.

Definition stretches (steps : list step) : list ((Z * Z) * (Z * Z)) :=
  flat_map stretch steps.

Definition same_point (a b : Z * Z) : bool :=
  (fst a =? fst b)%Z && (snd a =? snd b)%Z.

(** The discontinuities of a step sequence: the Drag steps that do not
    start where the Drag step before them ended.  Sleep steps in between
    do not count, and the first Drag step has none before it. *)
Fixpoint gaps (ds : list ((Z * Z) * (Z * Z))) : nat :=
  match ds with
  | [] => 0
  | a :: rest =>
      match rest with
      | b :: _ => if same_point (fst b) (snd a) then 0 else 1
      | [] => 0
      end + gaps rest
  end.

Definition discontinuities (steps : list step) : nat := gaps (stretches steps).

(** The Drag steps that do not start where the pointer is, when it is at
    [cur] before the first step. *)
Fixpoint breaks (cur : Z * Z) (steps : list step) : nat :=
  match steps with
  | [] => 0
  | Sleep _ :: rest => breaks cur rest
  | Drag sx sy ex ey _ :: rest =>
      (if same_point (sx, sy) cur then 0 else 1) + breaks (ex, ey) rest
  end.

(** The numbers printed with the segments, in order. *)
Definition numbered (e : event) : list nat :=
  match e with
  | Printed (Moving n _ _ _ _ _) => [n]
  | _ => []
  end.

Definition segment_numbers (t : list event) : list nat := flat_map numbered t.

(** The seconds of the [time.sleep] calls of a trace, in order. *)
Definition slept (e : event) : list float :=
  match e with
  | Called (sleep s) _ => [s]
  | _ => []
  end.

Definition sleeps (t : list event) : list float := flat_map slept t.

(** The pauses a step sequence asks for: each Sleep step, and the delay
    between segments after each Drag step when it is positive. *)
Definition pause (between_delay : float) (s : step) : list float :=
  match s with
  | Sleep seconds => [seconds]
  | Drag _ _ _ _ _ => if float_gt between_delay pos_zero then [between_delay] else []
  end.

Definition pauses (between_delay : float) (steps : list step) : list float :=
  flat_map (pause between_delay) steps.

(** What one iteration of the loop does when no call raises, and the loop
    as a whole. *)
Definition step_script (dd bd : float) (st : cursor) (s : step) : list event :=
  let '(cur, seg_index) := st in
  match s with
  | Sleep seconds => [Printed (Sleeping seconds); Called (sleep seconds) None]
  | Drag sx sy ex ey dur =>
      let duration := match dur with Some d => d | None => dd end in
      (if pos_neq (sx, sy) cur
       then [Printed (Warn sx sy (fst cur) (snd cur));
             Called (moveTo sx sy (Some pos_zero) None) None]
       else [])
      ++ [Printed (Moving (S seg_index) sx sy ex ey duration);
          Called (moveTo ex ey (Some duration) (Some easeInOutQuad)) None]
      ++ (if float_gt bd pos_zero then [Called (sleep bd) None] else [])
  end.

Definition step_next (st : cursor) (s : step) : cursor :=
  match s with
  | Sleep _ => st
  | Drag _ _ ex ey _ => ((ex, ey), S (snd st))
  end.

Fixpoint loop_script (dd bd : float) (steps : list step) (st : cursor) : list event :=
  match steps with
  | [] => []
  | s :: rest => step_script dd bd st s ++ loop_script dd bd rest (step_next st s)
  end.

(** The calls made while the button is not held, the press and the
    release apart: the button is held from a press that returned to the
    next release. *)
Fixpoint unheld (down : bool) (t : list event) : list call :=
  match t with
  | [] => []
  | Printed _ :: t' => unheld down t'
  | Called (mouseDown _) r :: t' =>
      unheld (match r with None => true | Some _ => down end) t'
  | Called (mouseUp _) _ :: t' => unheld false t'
  | Called c _ :: t' => (if down then [] else [c]) ++ unheld down t'
  end.

(** [t] is [ideal] cut at a call that raised [e] instead of returning. *)
Definition truncated (ideal t : list event) (e : exn) : Prop :=
  exists pre c post,
    ideal = pre ++ Called c None :: post /\ t = pre ++ [Called c (Some e)].

End TraceVocab.
Import TraceVocab.

(** * The command line program *)

Module Cli.

Local Open Scope list_scope.

(** The namespace that [argparse] hands to [main]. *)
Record args : Type := {
  file : string;
  default_duration : float;
  button : string;
  start_delay : float;
  between_delay : float
}.

(** The values [--button] accepts. *)
Definition choices : list string := ["left"; "right"; "middle"]%string.

(** The namespace when no option is given: [motions.txt], 1.5 seconds a
    segment, the left button, 2 seconds of start delay, no delay between
    segments. *)
Definition defaults : args :=
  {| file := "motions.txt";
     default_duration := S754_finite false 6755399441055744 (-52);
     button := "left";
     start_delay := S754_finite false 4503599627370496 (-51);
     between_delay := pos_zero |}.

(** The lines [main] prints, with the values they are built from. *)
Inductive notice : Type :=
| Banner                                       (* === drag mouse === *)
| FailsafeHint                                 (* Fling the mouse to ANY screen corner ... *)
| Reading (file : string)                      (* Reading steps from: ... *)
| Error (e : exn)                              (* Error: ... *)
| Loaded (n : nat) (start_delay : float)       (* Loaded n step(s). Starting in ... *)
| Done
| AbortedFailsafe                              (* Aborted by moving mouse to a screen corner *)
| AbortedByUser.                               (* Aborted by user (Ctrl+C). *)

(** What an observer of the program sees: a line of [main], or an event
    of the run (a line of [run_single_hold], or a backend call). *)
Inductive output : Type :=
| Notice (n : notice)
| Ran (e : event).

(** How [main] ends: it returns, [sys.exit(code)], or an exception leaves
    it uncaught. *)
Inductive outcome : Type :=
| Returned
| Exited (code : Z)
| Propagated (e : exn).

(** [except Exception] catches every exception of the program but
    [KeyboardInterrupt], which derives from [BaseException] only. *)
Definition is_Exception (e : exn) : bool :=
  match e with
  | KeyboardInterrupt => false
  | _ => true
  end.

(** [main()], for arguments [a].  [source] is what opening and reading
    [args.file] gives: its content, or the exception raised.  The backend
    sees the calls and the events of the run made so far. *)
Definition main (a : args) (source : exn + string) (env : backend)
  : list output * outcome :=
  let intro := [Notice Banner; Notice FailsafeHint; Notice (Reading (file a))] in
  match (match source with
         | inl e => inl e
         | inr content => parse_file (file a) content
         end) with
  | inl e =>
      if is_Exception e then (intro ++ [Notice (Error e)], Exited 1)
      else (intro, Propagated e)
  | inr steps =>
      let loaded := Notice (Loaded (List.length steps) (start_delay a)) in
      let r0 := env [] (sleep (start_delay a)) in
      let waited := Called (sleep (start_delay a)) r0 in
      match r0 with
      | Some e => (intro ++ [loaded; Ran waited], Propagated e)
      | None =>
          let '(t, r) :=
            run_single_hold (default_duration a) (between_delay a) steps (button a)
                            env [waited] in
          let played := intro ++ [loaded; Ran waited] ++ map Ran t in
          match r with
          | inr _ => (played ++ [Notice Done], Returned)
          | inl FailSafeException => (played ++ [Notice AbortedFailsafe], Returned)
          | inl KeyboardInterrupt => (played ++ [Notice AbortedByUser], Returned)
          | inl e => (played, Propagated e)
          end
      end
  end.

(** The events of the run among the output of the program. *)
Definition ran_event (o : output) : list event :=
  match o with
  | Ran e => [e]
  | Notice _ => []
  end.

Definition ran (out : list output) : list event := flat_map ran_event out.

End Cli.

(** * Properties of the executor *)

Module ExecFacts.

Local Open Scope list_scope.
Local Open Scope nat_scope.

Lemma emits_ret {A} P (a : A) : emits P (ret a).
Proof. intros env h. constructor. Qed.

Lemma emits_print P m : P (Printed m) -> emits P (print m).
Proof. intros H env h. simpl. auto. Qed.

Lemma emits_invoke P c : (forall r, P (Called c r)) -> emits P (invoke c).
Proof. intros H env h. simpl. auto. Qed.

Lemma emits_bind {A B} P (m : M A) (f : A -> M B) :
  emits P m -> (forall a, emits P (f a)) -> emits P (bind m f).
Proof.
  intros Hm Hf env h. unfold bind.
  specialize (Hm env h). destruct (m env h) as [t1 [e | a]]; simpl in *; auto.
  specialize (Hf a env (h ++ t1)).
  destruct (f a env (h ++ t1)) as [t2 r2]; simpl in *.
  apply Forall_app; auto.
Qed.

Lemma emits_when P b m : emits P m -> emits P (when b m).
Proof. destruct b; simpl; auto using @emits_ret. Qed.

Lemma exec_step_off_button dd bd st s : emits off_button (exec_step dd bd st s).
Proof.
  destruct st as [cur seg]; destruct s; simpl;
    repeat (first [ apply @emits_bind; [ | intros ? ]
                  | apply emits_when
                  | apply emits_print
                  | apply emits_invoke; intros ?
                  | apply @emits_ret ]);
    split; reflexivity.
Qed.

Lemma loop_off_button dd bd steps : forall st, emits off_button (loop dd bd steps st).
Proof.
  induction steps as [| s rest IH]; intros st; simpl.
  - apply @emits_ret.
  - apply @emits_bind; [apply exec_step_off_button | auto].
Qed.

Lemma count_app p (a b : list event) : count p (a ++ b) = count p a + count p b.
Proof. unfold count. rewrite filter_app, length_app. reflexivity. Qed.

Lemma count_zero p (t : list event) :
  Forall (fun e => p e = false) t -> count p t = 0.
Proof.
  unfold count. induction 1 as [| e t He _ IH]; simpl; [reflexivity |].
  rewrite He. exact IH.
Qed.

Lemma existsb_false (p : event -> bool) (t : list event) :
  Forall (fun e => p e = false) t -> existsb p t = false.
Proof.
  induction 1 as [| e t He _ IH]; simpl; [reflexivity |].
  rewrite He. exact IH.
Qed.

Lemma loop_count_release dd bd steps st env h :
  count is_release (fst (loop dd bd steps st env h)) = 0.
Proof.
  apply count_zero. eapply Forall_impl; [| apply loop_off_button].
  intros e [H _]. exact H.
Qed.

Lemma loop_never_pressed dd bd steps st env h :
  existsb pressed (fst (loop dd bd steps st env h)) = false.
Proof.
  apply existsb_false. eapply Forall_impl; [| apply loop_off_button].
  intros e [_ H]. destruct e as [m | [ | | | ] [x |]]; simpl in *; congruence.
Qed.

Lemma first_drag_none steps : first_drag steps = None <-> filter is_drag steps = [].
Proof.
  induction steps as [| [x1 y1 x2 y2 d | sec] rest IH]; simpl.
  - tauto.
  - split; discriminate.
  - exact IH.
Qed.

Lemma snoc_two (a b : list event) x y : a ++ b ++ [x; y] = (a ++ b ++ [x]) ++ [y].
Proof. rewrite <- !app_assoc. reflexivity. Qed.

(** The trace of a run that reaches the [try] block. *)
Lemma run_shape dd bd steps button env x1 y1 x2 y2 d :
  first_drag steps = Some (x1, y1, x2, y2, d) ->
  let btn := normalize_button button in
  let t0 := [Printed (MovingToStart x1 y1 btn)] in
  let r1 := env t0 (moveTo x1 y1 None None) in
  let t1 := t0 ++ [Called (moveTo x1 y1 None None) r1] in
  let r2 := env t1 (mouseDown btn) in
  let t2 := t1 ++ [Called (mouseDown btn) r2] in
  let tl := fst (loop dd bd steps ((x1, y1), 0) env t2) in
  let r3 := env ((t2 ++ tl) ++ [Printed Releasing]) (mouseUp btn) in
  fst (run_single_hold dd bd steps button env []) =
    match r1, r2 with
    | Some _, _ => t1
    | None, Some _ => t2
    | None, None => t2 ++ tl ++ [Printed Releasing; Called (mouseUp btn) r3]
    end.
Proof.
  intros Hd. unfold run_single_hold. rewrite Hd. cbv zeta.
  unfold bind, print, invoke, try_finally. simpl.
  destruct (env _ (moveTo x1 y1 None None)) as [e1 |]; simpl; [reflexivity |].
  destruct (env _ (mouseDown _)) as [e2 |]; simpl; [reflexivity |].
  destruct (loop dd bd steps _ env _) as [tl rl]; simpl.
  reflexivity.
Qed.

(** C1, as amended.  For every step sequence with at least one Drag step,
    once the initial move and the press have returned, the release
    primitive is invoked exactly once and it is the last event of the run,
    on every exit path: the loop may complete, or any backend call in it
    may raise (failsafe abort, interrupt), and the release is still called
    once, with the button that was pressed. *)
Theorem release_exactly_once dd bd steps button env :
  filter is_drag steps <> [] ->
  existsb pressed (fst (run_single_hold dd bd steps button env [])) = true ->
  count is_release (fst (run_single_hold dd bd steps button env [])) = 1 /\
  exists t out,
    fst (run_single_hold dd bd steps button env []) =
      t ++ [Called (mouseUp (normalize_button button)) out] /\
    existsb pressed t = true.
Proof.
  intros Hd.
  destruct (first_drag steps) as [[[[[x1 y1] x2] y2] d] |] eqn:E;
    [| apply first_drag_none in E; congruence].
  rewrite (run_shape dd bd steps button env x1 y1 x2 y2 d E). cbv zeta.
  set (btn := normalize_button button).
  destruct (env _ (moveTo x1 y1 None None)) as [e1 |]; [simpl; discriminate |].
  destruct (env _ (mouseDown btn)) as [e2 |]; [simpl; discriminate |].
  intros _. split.
  - rewrite !count_app, loop_count_release. reflexivity.
  - eexists _, _. split.
    + apply snoc_two.
    + rewrite existsb_app. reflexivity.
Qed.

Lemma release_exactly_once_witness :
  count is_release
    (fst (run_single_hold one_second pos_zero
            [Drag 0 0 5 5 None; Sleep one_second] "left" interrupt_moves [])) = 1.
Proof.
  apply (release_exactly_once one_second pos_zero
           [Drag 0 0 5 5 None; Sleep one_second] "left" interrupt_moves).
  - simpl. discriminate.
  - reflexivity.
Defined.

(** C1 as stated fails: a sequence that is not empty but holds no Drag
    step never calls the release primitive; and neither does a run whose
    initial move is aborted by the failsafe, before the button is down. *)
Lemma release_not_called_without_drag :
  [Sleep one_second] <> [] /\
  count is_release
    (fst (run_single_hold one_second pos_zero [Sleep one_second] "left"
            undisturbed [])) = 0 /\
  run_single_hold one_second pos_zero [Drag 0 0 5 5 None] "left"
    corner_at_start [] =
    ([Printed (MovingToStart 0 0 "left");
      Called (moveTo 0 0 None None) (Some FailSafeException)],
     inl FailSafeException).
Proof. split; [discriminate | split; reflexivity]. Qed.

(** When the press did not happen (the initial move or the press itself
    raised), the release primitive is not called. *)
Lemma no_release_without_press dd bd steps button env :
  existsb pressed (fst (run_single_hold dd bd steps button env [])) = false ->
  count is_release (fst (run_single_hold dd bd steps button env [])) = 0.
Proof.
  destruct (first_drag steps) as [[[[[x1 y1] x2] y2] d] |] eqn:E.
  - rewrite (run_shape dd bd steps button env x1 y1 x2 y2 d E). cbv zeta.
    destruct (env _ (moveTo x1 y1 None None)) as [e1 |]; [reflexivity |].
    destruct (env _ (mouseDown _)) as [e2 |]; [reflexivity |].
    simpl. discriminate.
  - unfold run_single_hold. rewrite E. reflexivity.
Qed.

(** C2.  A step sequence without any Drag step (empty, or Sleep steps
    only) makes the run print the no-op notice and return: no backend call
    is made, so the button is neither pressed nor released. *)
Theorem no_drag_is_noop dd bd steps button env h :
  filter is_drag steps = [] ->
  run_single_hold dd bd steps button env h = ([Printed NoDragSteps], inr tt) /\
  count is_press (fst (run_single_hold dd bd steps button env h)) = 0 /\
  count is_release (fst (run_single_hold dd bd steps button env h)) = 0.
Proof.
  intros H. apply first_drag_none in H.
  unfold run_single_hold. rewrite H. simpl. auto.
Qed.

Lemma no_drag_is_noop_witness :
  run_single_hold one_second pos_zero [Sleep one_second; Sleep pos_zero] "left"
    interrupt_moves [] = ([Printed NoDragSteps], inr tt).
Proof.
  apply (no_drag_is_noop one_second pos_zero [Sleep one_second; Sleep pos_zero]
           "left" interrupt_moves []).
  reflexivity.
Defined.

Lemma pos_neq_true a b : a <> b -> pos_neq a b = true.
Proof.
  destruct a as [ax ay], b as [bx by_]. unfold pos_neq. simpl. intros H.
  destruct (Z.eqb_spec ax bx), (Z.eqb_spec ay by_); simpl; try reflexivity.
  subst. congruence.
Qed.

Ltac find_call :=
  eexists; simpl; repeat (first [left; reflexivity | right]).

Ltac no_raise :=
  repeat match goal with
         | H : Forall _ (_ :: _) |- _ => inversion H; clear H; subst
         end;
  try contradiction; try reflexivity.

(** C6.  In an iteration on a Drag step whose declared start differs from
    the tracked position: the iteration begins with one warning followed
    by one zero-duration move to the declared start; no further warning
    and no further reposition follows; when that move returns, the timed
    eased move to the end of the step is called next; the button is not
    released in the iteration; and the iteration raises only what a
    backend call raised, so the discontinuity itself is never fatal: when
    no call raises, the iteration ends with the position at the end of the
    step. *)
Theorem discontinuity_bridged dd bd cur seg sx sy ex ey dur env h :
  (sx, sy) <> cur ->
  let duration := match dur with Some d => d | None => dd end in
  let t := fst (exec_step dd bd (cur, seg) (Drag sx sy ex ey dur) env h) in
  let r := snd (exec_step dd bd (cur, seg) (Drag sx sy ex ey dur) env h) in
  (exists o rest,
      t = Printed (Warn sx sy (fst cur) (snd cur))
          :: Called (moveTo sx sy (Some pos_zero) None) o :: rest /\
      count is_warning rest = 0 /\
      count is_reposition rest = 0 /\
      (o = None ->
       exists o' rest',
         rest = Printed (Moving (S seg) sx sy ex ey duration)
                :: Called (moveTo ex ey (Some duration) (Some easeInOutQuad)) o'
                :: rest')) /\
  count is_warning t = 1 /\
  count is_reposition t = 1 /\
  count is_release t = 0 /\
  (forall e, r = inl e -> exists c, In (Called c (Some e)) t) /\
  (Forall (fun ev => match ev with Called _ (Some _) => False | _ => True end) t ->
   r = inr ((ex, ey), S seg)).
Proof.
  intros Hne. cbv zeta.
  unfold exec_step. rewrite (pos_neq_true _ _ Hne).
  unfold when, bind, print, invoke, ret. simpl.
  destruct (env _ (moveTo sx sy _ None)) as [e1 |]; simpl;
    [| destruct (env _ (moveTo ex ey _ (Some easeInOutQuad))) as [e2 |]; simpl;
       [| destruct (float_gt bd pos_zero); simpl;
          [destruct (env _ (sleep bd)) as [e3 |]; simpl |]]].
  all: split.
  all: try (eexists _, _; repeat split; try reflexivity;
            first [discriminate | intros _; eexists _, _; reflexivity]).
  all: repeat split; try reflexivity.
  all: try (intros e He; first [discriminate | inversion He; subst; find_call]).
  all: try (intros HF; no_raise).
Qed.

Lemma discontinuity_bridged_witness :
  count is_warning
    (fst (exec_step one_second pos_zero ((3%Z, 4%Z), 1) (Drag 5 5 6 6 None)
            undisturbed [])) = 1.
Proof.
  apply (discontinuity_bridged one_second pos_zero (3%Z, 4%Z) 1 5 5 6 6 None
           undisturbed []).
  intros H. inversion H.
Defined.

(** When the declared start is the tracked position there is neither a
    warning nor a reposition. *)
Lemma continuous_step_is_silent dd bd seg sx sy ex ey dur env h :
  let t := fst (exec_step dd bd ((sx, sy), seg) (Drag sx sy ex ey dur) env h) in
  count is_warning t = 0 /\ count is_reposition t = 0.
Proof.
  cbv zeta. unfold exec_step, pos_neq. simpl. rewrite !Z.eqb_refl. simpl.
  unfold when, bind, print, invoke, ret. simpl.
  destruct (env _ (moveTo ex ey _ _)) as [e2 |]; simpl; [split; reflexivity |].
  destruct (float_gt bd pos_zero); simpl; [| split; reflexivity].
  destruct (env _ (sleep bd)); simpl; split; reflexivity.
Qed.

Lemma lower_char_l c : Ascii.eqb (lower_char c) "l" = letter "L" "l" c.
Proof. destruct c as [[] [] [] [] [] [] [] []]; reflexivity. Qed.

Lemma lower_char_e c : Ascii.eqb (lower_char c) "e" = letter "E" "e" c.
Proof. destruct c as [[] [] [] [] [] [] [] []]; reflexivity. Qed.

Lemma lower_char_f c : Ascii.eqb (lower_char c) "f" = letter "F" "f" c.
Proof. destruct c as [[] [] [] [] [] [] [] []]; reflexivity. Qed.

Lemma lower_char_t c : Ascii.eqb (lower_char c) "t" = letter "T" "t" c.
Proof. destruct c as [[] [] [] [] [] [] [] []]; reflexivity. Qed.

Lemma lower_char_r c : Ascii.eqb (lower_char c) "r" = letter "R" "r" c.
Proof. destruct c as [[] [] [] [] [] [] [] []]; reflexivity. Qed.

Lemma lower_char_i c : Ascii.eqb (lower_char c) "i" = letter "I" "i" c.
Proof. destruct c as [[] [] [] [] [] [] [] []]; reflexivity. Qed.

Lemma lower_char_g c : Ascii.eqb (lower_char c) "g" = letter "G" "g" c.
Proof. destruct c as [[] [] [] [] [] [] [] []]; reflexivity. Qed.

Lemma lower_char_h c : Ascii.eqb (lower_char c) "h" = letter "H" "h" c.
Proof. destruct c as [[] [] [] [] [] [] [] []]; reflexivity. Qed.

Lemma lower_char_m c : Ascii.eqb (lower_char c) "m" = letter "M" "m" c.
Proof. destruct c as [[] [] [] [] [] [] [] []]; reflexivity. Qed.

Lemma lower_char_d c : Ascii.eqb (lower_char c) "d" = letter "D" "d" c.
Proof. destruct c as [[] [] [] [] [] [] [] []]; reflexivity. Qed.

(** Lower-casing gives a button name exactly for the strings that spell
    it in some mix of cases. *)
Lemma lower_is_left b : String.eqb (lower b) "left" = spells word_left b.
Proof.
  destruct b as [| c1 [| c2 [| c3 [| c4 [| c5 b]]]]]; try reflexivity;
    unfold lower, word_left; cbn [smap String.eqb spells];
    rewrite ?lower_char_l, ?lower_char_e, ?lower_char_f, ?lower_char_t; reflexivity.
Qed.

Lemma lower_is_right b : String.eqb (lower b) "right" = spells word_right b.
Proof.
  destruct b as [| c1 [| c2 [| c3 [| c4 [| c5 [| c6 b]]]]]]; try reflexivity;
    unfold lower, word_right; cbn [smap String.eqb spells];
    rewrite ?lower_char_r, ?lower_char_i, ?lower_char_g, ?lower_char_h, ?lower_char_t;
    reflexivity.
Qed.

Lemma lower_is_middle b : String.eqb (lower b) "middle" = spells word_middle b.
Proof.
  destruct b as [| c1 [| c2 [| c3 [| c4 [| c5 [| c6 [| c7 b]]]]]]]; try reflexivity;
    unfold lower, word_middle; cbn [smap String.eqb spells];
    rewrite ?lower_char_m, ?lower_char_i, ?lower_char_d, ?lower_char_l, ?lower_char_e;
    reflexivity.
Qed.

(** C10.  The button handed to the backend is the lower-cased
    configuration value when that is one of left, right and middle, and
    ["left"] otherwise; it is always one of the three; and every press and
    every release of a run carries this same value.  Lower-casing is
    that of the letters: a value that spells right or middle in any mix of
    capital and small letters gives that name, and every other value gives
    left.  So [MiDdLe] is the middle button and [banana] the left one, and
    a run configured with [MiDdLe] presses and releases ["middle"]. *)
Theorem button_normalised dd bd steps button env :
  (In (lower button) ["left"; "right"; "middle"]%string ->
     normalize_button button = lower button) /\
  (~ In (lower button) ["left"; "right"; "middle"]%string ->
     normalize_button button = "left"%string) /\
  In (normalize_button button) ["left"; "right"; "middle"]%string /\
  (forall b out,
    In (Called (mouseDown b) out) (fst (run_single_hold dd bd steps button env [])) \/
    In (Called (mouseUp b) out) (fst (run_single_hold dd bd steps button env [])) ->
    b = normalize_button button) /\
  normalize_button button =
    (if spells word_right button then "right"
     else if spells word_middle button then "middle"
     else "left")%string /\
  normalize_button "MiDdLe" = "middle"%string /\
  normalize_button "RIGHT" = "right"%string /\
  normalize_button "banana" = "left"%string /\
  calls (fst (run_single_hold dd pos_zero example_steps "MiDdLe" undisturbed [])) =
    [ moveTo (-660) 663 None None;
      mouseDown "middle";
      moveTo (-961) 494 (Some one_second) (Some easeInOutQuad);
      sleep tenth;
      moveTo (-1260) 494 (Some one_second) (Some easeInOutQuad);
      mouseUp "middle" ].
Proof.
  assert (Hn : forall s, existsb (String.eqb s) ["left"; "right"; "middle"]%string = true
                         <-> In s ["left"; "right"; "middle"]%string).
  { intros s. rewrite existsb_exists. split.
    - intros [x [Hx He]]. apply String.eqb_eq in He. subst. exact Hx.
    - intros Hs. exists s. split; [exact Hs | apply String.eqb_refl]. }
  split; [| split; [| split; [| split; [| split; [| split; [| split; [| split]]]]]]].
  - intros Hin. unfold normalize_button. apply Hn in Hin. rewrite Hin. reflexivity.
  - intros Hnin. unfold normalize_button.
    destruct (existsb _ _) eqn:E; [| reflexivity].
    apply Hn in E. contradiction.
  - unfold normalize_button.
    destruct (existsb _ _) eqn:E; [apply Hn; exact E | simpl; auto].
  - intros b out Hin.
    destruct (first_drag steps) as [[[[[x1 y1] x2] y2] d] |] eqn:E.
    + rewrite (run_shape dd bd steps button env x1 y1 x2 y2 d E) in Hin.
      cbv zeta in Hin.
      assert (Hl : forall ev, In ev (fst (loop dd bd steps ((x1, y1), 0) env
                     ([Printed (MovingToStart x1 y1 (normalize_button button))] ++
                      [Called (moveTo x1 y1 None None) None] ++
                      [Called (mouseDown (normalize_button button)) None]))) ->
                   off_button ev).
      { apply Forall_forall. apply loop_off_button. }
      destruct (env _ (moveTo x1 y1 None None)) as [e1 |].
      { simpl in Hin. intuition congruence. }
      destruct (env _ (mouseDown _)) as [e2 |].
      { simpl in Hin. intuition congruence. }
      simpl in Hin. rewrite !in_app_iff in Hin. simpl in Hin.
      destruct Hin as [[H | [H | [H | [H | H]]]] | [H | [H | [H | [H | H]]]]];
        try congruence;
        try (apply Hl in H; destruct H as [H1 H2]; simpl in *; congruence);
        try (destruct H as [H | [H | []]]; congruence).
    + unfold run_single_hold in Hin. rewrite E in Hin. simpl in Hin.
      intuition congruence.
  - unfold normalize_button. cbn [existsb].
    rewrite lower_is_left, lower_is_right, lower_is_middle.
    destruct (spells word_right button) eqn:R.
    + rewrite <- lower_is_right in R. apply String.eqb_eq in R.
      rewrite orb_true_r. exact R.
    + destruct (spells word_middle button) eqn:Md.
      * rewrite <- lower_is_middle in Md. apply String.eqb_eq in Md.
        rewrite !orb_true_r. exact Md.
      * destruct (spells word_left button) eqn:L; [| reflexivity].
        rewrite <- lower_is_left in L. apply String.eqb_eq in L. exact L.
  - reflexivity.
  - reflexivity.
  - reflexivity.
  - reflexivity.
Qed.

Lemma button_normalised_witness :
  normalize_button "Right" = "right"%string /\
  normalize_button "midle" = "left"%string.
Proof.
  split.
  - exact (proj1 (proj2 (proj2 (proj2 (proj2
             (button_normalised pos_zero pos_zero [] "Right" undisturbed)))))).
  - exact (proj1 (proj2 (proj2 (proj2 (proj2
             (button_normalised pos_zero pos_zero [] "midle" undisturbed)))))).
Defined.

End ExecFacts.

Import ExecFacts.

(** * Properties of the string and number primitives *)

Module StrFacts.

Lemma append_nil_r (s : string) : s ++ "" = s.
Proof. induction s as [| c s IH]; simpl; [reflexivity | rewrite IH; reflexivity]. Qed.

Lemma append_assoc (a b c : string) : (a ++ b) ++ c = a ++ b ++ c.
Proof. induction a as [| x a IH]; simpl; [reflexivity | rewrite IH; reflexivity]. Qed.

Lemma length_append (a b : string) :
  String.length (a ++ b) = (String.length a + String.length b)%nat.
Proof. induction a as [| x a IH]; simpl; [reflexivity | rewrite IH; reflexivity]. Qed.

Lemma forallb_str_app p (a b : string) :
  forallb_str p (a ++ b) = forallb_str p a && forallb_str p b.
Proof.
  induction a as [| x a IH]; simpl; [reflexivity |].
  rewrite IH. apply andb_assoc.
Qed.

Lemma forallb_str_impl (p q : ascii -> bool) (s : string) :
  (forall c, p c = true -> q c = true) ->
  forallb_str p s = true -> forallb_str q s = true.
Proof.
  intros Hpq. induction s as [| c s IH]; simpl; [reflexivity |].
  intros H. apply andb_true_iff in H. destruct H as [H1 H2].
  rewrite (Hpq c H1), (IH H2). reflexivity.
Qed.

Lemma append_cancel_r (a b r : string) : a ++ r = b ++ r -> a = b.
Proof.
  revert b. induction a as [| x a IH]; intros [| y b] E; simpl in E.
  - reflexivity.
  - exfalso. apply (f_equal String.length) in E. simpl in E.
    rewrite length_append in E. lia.
  - exfalso. apply (f_equal String.length) in E. simpl in E.
    rewrite length_append in E. lia.
  - inversion E; subst. f_equal. apply IH. assumption.
Qed.

Lemma take_app (g rest : string) :
  take (String.length (g ++ rest) - String.length rest) (g ++ rest) = g.
Proof.
  rewrite length_append.
  replace (String.length g + String.length rest - String.length rest)%nat
    with (String.length g) by lia.
  induction g as [| c g IH]; simpl.
  - destruct rest; reflexivity.
  - rewrite IH. reflexivity.
Qed.

Lemma lstrip_ws (w s : string) :
  forallb_str isspace w = true ->
  lstrip_by isspace (w ++ s) = lstrip_by isspace s.
Proof.
  induction w as [| c w IH]; simpl; [reflexivity |].
  intros H. apply andb_true_iff in H. destruct H as [H1 H2].
  rewrite H1. auto.
Qed.

Lemma lstrip_head (s : string) :
  head_is ink s = true -> lstrip_by isspace s = s.
Proof.
  destruct s as [| c s]; simpl; [reflexivity |].
  unfold ink. intros H. apply negb_true_iff in H. rewrite H. reflexivity.
Qed.

Lemma rstrip_ws (w : string) :
  forallb_str isspace w = true -> rstrip_by isspace w = "".
Proof.
  induction w as [| c w IH]; simpl; [reflexivity |].
  intros H. apply andb_true_iff in H. destruct H as [H1 H2].
  rewrite (IH H2), H1. reflexivity.
Qed.

Lemma rstrip_empty_ws (s : string) :
  rstrip_by isspace s = "" -> forallb_str isspace s = true.
Proof.
  induction s as [| c s IH]; simpl; [reflexivity |].
  destruct (rstrip_by isspace s) eqn:E.
  - destruct (isspace c); [intros _; simpl; auto | discriminate].
  - discriminate.
Qed.

Lemma rstrip_app_keep (a b : string) :
  forallb_str isspace b = false ->
  rstrip_by isspace (a ++ b) = a ++ rstrip_by isspace b.
Proof.
  intros Hb. induction a as [| c a IH]; simpl; [reflexivity |].
  rewrite IH. destruct (a ++ rstrip_by isspace b) eqn:E; [| reflexivity].
  exfalso. destruct a; simpl in E; [| discriminate].
  apply rstrip_empty_ws in E. congruence.
Qed.

Lemma rstrip_ink (y : string) :
  forallb_str ink y = true -> rstrip_by isspace y = y.
Proof.
  induction y as [| c y IH]; simpl; [reflexivity |].
  intros H. apply andb_true_iff in H. destruct H as [H1 H2].
  rewrite (IH H2). unfold ink in H1. apply negb_true_iff in H1. rewrite H1.
  destruct y; reflexivity.
Qed.

Lemma rstrip_ink_ws (y w : string) :
  forallb_str ink y = true -> forallb_str isspace w = true ->
  rstrip_by isspace (y ++ w) = y.
Proof.
  intros Hy Hw. induction y as [| c y IH]; simpl.
  - apply rstrip_ws. exact Hw.
  - simpl in Hy. apply andb_true_iff in Hy. destruct Hy as [H1 H2].
    rewrite (IH H2). unfold ink in H1. apply negb_true_iff in H1. rewrite H1.
    destruct y; reflexivity.
Qed.

Lemma ink_not_ws (y : string) :
  y <> "" -> forallb_str ink y = true -> forallb_str isspace y = false.
Proof.
  destruct y as [| c y]; [congruence |]. simpl. intros _ H.
  apply andb_true_iff in H. destruct H as [H1 _].
  unfold ink in H1. apply negb_true_iff in H1. rewrite H1. reflexivity.
Qed.

Lemma not_ws_app_l (a b : string) :
  forallb_str isspace a = false -> forallb_str isspace (a ++ b) = false.
Proof. intros H. rewrite forallb_str_app, H. reflexivity. Qed.

Lemma not_ws_app_r (a b : string) :
  forallb_str isspace b = false -> forallb_str isspace (a ++ b) = false.
Proof. intros H. rewrite forallb_str_app, H. apply andb_false_r. Qed.

(** What [strip] leaves is empty or has ink at both ends. *)
Lemma lstrip_head_ink (s : string) : head_is ink (lstrip_by isspace s) = true.
Proof.
  induction s as [| c s IH]; simpl; [reflexivity |].
  destruct (isspace c) eqn:E; [exact IH |]. simpl. unfold ink. rewrite E. reflexivity.
Qed.

Lemma rstrip_head (s : string) :
  head_is ink s = true -> head_is ink (rstrip_by isspace s) = true.
Proof.
  destruct s as [| c s]; simpl; [reflexivity |].
  intros H. destruct (rstrip_by isspace s); [| exact H].
  unfold ink in H. apply negb_true_iff in H. rewrite H. simpl.
  unfold ink. rewrite H. reflexivity.
Qed.

Lemma strip_head_ink (s : string) : head_is ink (strip s) = true.
Proof. unfold strip. apply rstrip_head, lstrip_head_ink. Qed.

(** Character facts, by enumeration of the 256 characters. *)
Ltac by_cases_on_char c :=
  destruct c as [[] [] [] [] [] [] [] []]; vm_compute; try reflexivity;
  try discriminate; intuition (try discriminate; try congruence).

Lemma digit_is_ink c : isdigit c = true -> ink c = true.
Proof. by_cases_on_char c. Qed.

Lemma digit_not_space c : isdigit c = true -> isspace c = false.
Proof. by_cases_on_char c. Qed.

Lemma space_not_digit c : isspace c = true -> isdigit c = false.
Proof. by_cases_on_char c. Qed.

Lemma c_space_is_space c : c_isspace c = true -> isspace c = true.
Proof. by_cases_on_char c. Qed.

Lemma upper_char_S c : upper_char c = "S"%char <-> c = "S"%char \/ c = "s"%char.
Proof. by_cases_on_char c. Qed.

Lemma upper_char_L c : upper_char c = "L"%char <-> c = "L"%char \/ c = "l"%char.
Proof. by_cases_on_char c. Qed.

Lemma upper_char_E c : upper_char c = "E"%char <-> c = "E"%char \/ c = "e"%char.
Proof. by_cases_on_char c. Qed.

Lemma upper_char_P c : upper_char c = "P"%char <-> c = "P"%char \/ c = "p"%char.
Proof. by_cases_on_char c. Qed.

End StrFacts.
Import StrFacts.

(** * Properties of the regular-expression matcher *)

Module ReFacts.

Lemma star_sound cl s k x :
  star cl s k = Some x ->
  exists w s', s = w ++ s' /\ forallb_str (in_class cl) w = true /\ k s' = Some x.
Proof.
  induction s as [| c s IH]; simpl.
  - intros H. exists "", "". auto.
  - destruct (in_class cl c) eqn:E.
    + destruct (star cl s k) as [r |] eqn:Es.
      * intros H. inversion H; subst.
        destruct (IH eq_refl) as [w [s' [H1 [H2 H3]]]].
        exists (String c w), s'. simpl. rewrite E, H2, <- H1. auto.
      * intros H. exists "", (String c s). auto.
    + intros H. exists "", (String c s). auto.
Qed.

(** Whatever the matcher returns is a match in the declarative sense. *)
Theorem run_sound r : forall s caps k x,
  run r s caps k = Some x ->
  exists s' caps', matches r s s' caps caps' /\ k s' caps' = Some x.
Proof.
  induction r as [c | cl | cl | r IH | r1 IH1 r2 IH2 | n r IH |];
    intros s caps k x H; simpl in H.
  - destruct s as [| c' s]; [discriminate |].
    destruct (Ascii.eqb_spec c c'); [| discriminate]. subst.
    eexists _, _. split; [constructor | exact H].
  - apply star_sound in H. destruct H as [w [s' [H1 [H2 H3]]]]. subst.
    eexists _, _. split; [constructor; exact H2 | exact H3].
  - destruct s as [| c s]; [discriminate |].
    destruct (in_class cl c) eqn:E; [| discriminate].
    apply star_sound in H. destruct H as [w [s' [H1 [H2 H3]]]]. subst.
    eexists _, _. split; [constructor; assumption | exact H3].
  - destruct (run r s caps k) as [y |] eqn:E.
    + inversion H; subst. apply IH in E. destruct E as [s' [caps' [H1 H2]]].
      eexists _, _. split; [apply m_opt_some; exact H1 | exact H2].
    + eexists _, _. split; [apply m_opt_none | exact H].
  - apply IH1 in H. destruct H as [s1 [c1 [H1 H2]]].
    apply IH2 in H2. destruct H2 as [s2 [c2 [H2 H3]]].
    eexists _, _. split; [econstructor; eassumption | exact H3].
  - apply IH in H. destruct H as [s' [caps' [H1 H2]]].
    eexists _, _. split; [constructor; exact H1 | exact H2].
  - destruct s as [| c [| c' s]].
    + eexists _, _. split; [constructor | exact H].
    + destruct c as [[] [] [] [] [] [] [] []]; try discriminate.
      eexists _, _. split; [apply m_eos_lf | exact H].
    + destruct c as [[] [] [] [] [] [] [] []]; discriminate.
Qed.

(** A match reads a prefix. *)
Lemma matches_prefix r s s' c c' :
  matches r s s' c c' -> exists g, s = g ++ s'.
Proof.
  induction 1.
  - exists (String c ""). reflexivity.
  - exists w. reflexivity.
  - exists (String c w). reflexivity.
  - assumption.
  - exists "". reflexivity.
  - destruct IHmatches1 as [g1 H1], IHmatches2 as [g2 H2]. subst.
    exists (g1 ++ g2). symmetry. apply append_assoc.
  - assumption.
  - exists "". reflexivity.
  - exists "". reflexivity.
Qed.

(** ** Inversion of the pieces of [drag_line_re] *)

Lemma cat_inv r1 r2 s s2 c c2 :
  matches (Cat r1 r2) s s2 c c2 ->
  exists s1 c1, matches r1 s s1 c c1 /\ matches r2 s1 s2 c1 c2.
Proof. intros H. inversion H; subst. eauto. Qed.

Lemma lit_inv ch s s' c c' :
  matches (Lit ch) s s' c c' -> s = String ch s' /\ c' = c.
Proof. intros H. inversion H; subst. auto. Qed.

Lemma ws_inv s s' c c' :
  matches ws s s' c c' -> exists w, s = w ++ s' /\ is_ws w = true /\ c' = c.
Proof. intros H. inversion H; subst. eauto. Qed.

Lemma eos_inv s s' c c' :
  matches Eos s s' c c' -> s' = s /\ is_ws s = true /\ c' = c.
Proof. intros H. inversion H; subst; auto. Qed.

Lemma group_inv n r s s' c c' :
  matches (Group n r) s s' c c' ->
  exists g c1, s = g ++ s' /\ matches r s s' c c1 /\ c' = (n, g) :: c1.
Proof.
  intros H. inversion H; subst.
  destruct (matches_prefix _ _ _ _ _ H6) as [g Hg]. subst.
  exists g, c'0. rewrite take_app. auto.
Qed.

Lemma digit_then_digits c w :
  isdigit c = true -> forallb_str isdigit w = true ->
  is_int_lit (String c w) = true /\ is_digits1 (String c w) = true.
Proof.
  intros Hc Hw. unfold is_int_lit, is_digits1. simpl. rewrite Hc, Hw.
  destruct (Ascii.eqb_spec c "-"); [subst; discriminate | auto].
Qed.

Lemma star_inv cl s s' c c' :
  matches (Star cl) s s' c c' ->
  exists w, s = w ++ s' /\ forallb_str (in_class cl) w = true /\ c' = c.
Proof. intros H. inversion H; subst. eauto. Qed.

Lemma plus_inv cl s s' c c' :
  matches (Plus cl) s s' c c' ->
  exists ch w, s = String ch (w ++ s') /\ in_class cl ch = true /\
               forallb_str (in_class cl) w = true /\ c' = c.
Proof. intros H. inversion H; subst. eauto 8. Qed.

Lemma opt_inv r s s' c c' :
  matches (Opt r) s s' c c' -> matches r s s' c c' \/ (s' = s /\ c' = c).
Proof. intros H. inversion H; subst; auto. Qed.

Lemma int_re_inv n s s' c c' :
  matches (int_re n) s s' c c' ->
  exists g, s = g ++ s' /\ is_int_lit g = true /\ c' = (n, g) :: c.
Proof.
  intros H. apply group_inv in H. destruct H as [g [c1 [Hs [H Hc]]]].
  apply cat_inv in H. destruct H as [s1 [c2 [Ho Hp]]].
  apply plus_inv in Hp. destruct Hp as [ch [w [Hs1 [Hch [Hw Hc1]]]]].
  change (isdigit ch = true) in Hch.
  change (forallb_str isdigit w = true) in Hw.
  subst c1 c'.
  exists g. split; [exact Hs |].
  apply opt_inv in Ho. destruct Ho as [Ho | [Ho Hc2]].
  - apply lit_inv in Ho. destruct Ho as [Ho Hc2]. subst c2.
    rewrite Hs1 in Ho. rewrite Ho in Hs.
    change (String "-" (String ch (w ++ s'))) with (String "-" (String ch w) ++ s') in Hs.
    apply append_cancel_r in Hs. subst g. split; [| reflexivity].
    unfold is_int_lit. simpl. apply (digit_then_digits ch w Hch Hw).
  - subst c2 s1. rewrite Hs1 in Hs.
    change (String ch (w ++ s')) with (String ch w ++ s') in Hs.
    apply append_cancel_r in Hs. subst g. split; [| reflexivity].
    apply (digit_then_digits ch w Hch Hw).
Qed.

Lemma real_re_inv s s' c c' :
  matches (Group 5 (seq (Star cls_09) [Opt (Lit "."); Plus cls_09])) s s' c c' ->
  exists g, s = g ++ s' /\ real_lit g /\ c' = (5%nat, g) :: c.
Proof.
  intros H. apply group_inv in H. destruct H as [g [c1 [Hs [H Hc]]]].
  cbn [seq] in H.
  apply cat_inv in H. destruct H as [s1 [c2 [Ha H]]].
  apply cat_inv in H. destruct H as [s2 [c3 [Ho Hp]]].
  apply star_inv in Ha. destruct Ha as [a [Hsa [Ha Hc2]]].
  apply plus_inv in Hp. destruct Hp as [ch [w [Hs2 [Hch [Hw Hc3]]]]].
  change (forallb_str isdigit a = true) in Ha.
  change (isdigit ch = true) in Hch.
  change (forallb_str isdigit w = true) in Hw.
  subst c1 c2 c'.
  exists g. split; [exact Hs |].
  destruct (digit_then_digits ch w Hch Hw) as [_ Hb].
  apply opt_inv in Ho. destruct Ho as [Ho | [Ho Hc3]].
  - apply lit_inv in Ho. destruct Ho as [Ho Hc3]. subst c3.
    rewrite Hsa, Ho, Hs2 in Hs.
    change (a ++ String "." (String ch (w ++ s')))
      with (a ++ "." ++ String ch w ++ s') in Hs.
    rewrite <- !append_assoc in Hs. apply append_cancel_r in Hs.
    rewrite append_assoc in Hs. subst g. split; [| reflexivity].
    apply real_point; assumption.
  - subst c3 s2. rewrite Hsa, Hs2 in Hs.
    change (a ++ String ch (w ++ s')) with (a ++ String ch w ++ s') in Hs.
    rewrite <- append_assoc in Hs. apply append_cancel_r in Hs.
    subst g. split; [| reflexivity].
    apply real_plain. unfold is_digits1.
    assert (Hd : forallb_str isdigit (a ++ String ch w) = true).
    { rewrite forallb_str_app, Ha. simpl. rewrite Hch, Hw. reflexivity. }
    rewrite Hd. destruct a; reflexivity.
Qed.

Lemma is_ws_app (a b : string) :
  is_ws a = true -> is_ws b = true -> is_ws (a ++ b) = true.
Proof. unfold is_ws. intros Ha Hb. rewrite forallb_str_app, Ha, Hb. reflexivity. Qed.

Lemma tail_inv s s' c c' :
  matches (Cat (Opt (seq ws [Lit ","; ws;
                 Group 5 (seq (Star cls_09) [Opt (Lit "."); Plus cls_09])]))
               (Cat ws Eos)) s s' c c' ->
  exists od, tail_shape s od /\
             c' = (match od with Some d => [(5%nat, d)] | None => [] end ++ c)%list.
Proof.
  intros H. apply cat_inv in H. destruct H as [s1 [c1 [Ho H]]].
  apply cat_inv in H. destruct H as [s2 [c2 [Hw He]]].
  apply ws_inv in Hw. destruct Hw as [w [Hs1 [Hw Hc2]]].
  apply eos_inv in He. destruct He as [Hs' [He Hc']]. subst s' c2 c'.
  assert (Hend : is_ws s1 = true) by (subst s1; apply is_ws_app; assumption).
  apply opt_inv in Ho. destruct Ho as [Ho | [Ho Hc1]].
  - cbn [seq] in Ho.
    apply cat_inv in Ho. destruct Ho as [t1 [d1 [H1 Ho]]].
    apply cat_inv in Ho. destruct Ho as [t2 [d2 [H2 Ho]]].
    apply cat_inv in Ho. destruct Ho as [t3 [d3 [H3 H4]]].
    apply ws_inv in H1. destruct H1 as [w7 [E1 [Hw7 Hd1]]].
    apply lit_inv in H2. destruct H2 as [E2 Hd2].
    apply ws_inv in H3. destruct H3 as [w8 [E3 [Hw8 Hd3]]].
    apply real_re_inv in H4. destruct H4 as [d [E4 [Hd Hc1]]].
    subst. exists (Some d). split; [| reflexivity].
    apply (tail_some w7 w8 d _ Hw7 Hw8 Hend Hd).
  - subst. exists None. split; [| reflexivity]. apply tail_none. exact Hend.
Qed.

(** A line that [drag_line_re] matches has the shape of a drag line, and
    the groups are its tokens. *)
Theorem drag_line_re_sound line caps :
  re_match drag_line_re line = Some caps ->
  exists x1 y1 x2 y2 od,
    drag_shape line x1 y1 x2 y2 od /\ caps = caps_of x1 y1 x2 y2 od.
Proof.
  unfold re_match. intros H. apply run_sound in H.
  destruct H as [s' [caps' [H Hc]]]. inversion Hc; subst caps'; clear Hc.
  cbv [drag_line_re seq] in H.
  repeat match type of H with
         | matches (Cat (Opt _) _) _ _ _ _ => fail 1
         | matches (Cat _ _) _ _ _ _ =>
             let s1 := fresh "s" in
             let c1 := fresh "c" in
             let H1 := fresh "M" in
             apply cat_inv in H; destruct H as [s1 [c1 [H1 H]]]
         end.
  apply tail_inv in H. destruct H as [od [Ht Hcaps]].
  repeat match goal with
         | M : matches ws _ _ _ _ |- _ =>
             let w := fresh "w" in
             apply ws_inv in M; destruct M as [w [? [? ?]]]
         | M : matches (Lit _) _ _ _ _ |- _ =>
             apply lit_inv in M; destruct M as [? ?]
         | M : matches (int_re _) _ _ _ _ |- _ =>
             let g := fresh "g" in
             apply int_re_inv in M; destruct M as [g [? [? ?]]]
         end.
  subst.
  eexists _, _, _, _, od. split.
  - eapply (drag_shape_intro _ _ _ _ _ _ _ _ _ _ _ _ od); eassumption.
  - unfold caps_of. destruct od; reflexivity.
Qed.

(** ** The matcher on a line of the grammar *)

Lemma star_stop cl rest k :
  head_is (outside cl) rest = true -> star cl rest k = k rest.
Proof.
  destruct rest as [| c rest]; simpl; [reflexivity |].
  unfold outside. intros H. apply negb_true_iff in H. rewrite H. reflexivity.
Qed.

(** The longest run is tried first. *)
Lemma star_greedy cl w rest k x :
  forallb_str (in_class cl) w = true ->
  head_is (outside cl) rest = true ->
  k rest = Some x ->
  star cl (w ++ rest) k = Some x.
Proof.
  intros Hw Hr Hk. induction w as [| c w IH]; simpl.
  - rewrite star_stop; assumption.
  - simpl in Hw. apply andb_true_iff in Hw. destruct Hw as [Hc Hw].
    rewrite Hc, (IH Hw). reflexivity.
Qed.

(** When the longest run fails, the run shorter by one is tried next. *)
Lemma star_back_one cl w c rest k x :
  forallb_str (in_class cl) w = true ->
  in_class cl c = true ->
  head_is (outside cl) rest = true ->
  k rest = None ->
  k (String c rest) = Some x ->
  star cl (w ++ String c rest) k = Some x.
Proof.
  intros Hw Hc Hr Hn Hk. induction w as [| a w IH]; simpl.
  - rewrite Hc, star_stop, Hn; assumption.
  - simpl in Hw. apply andb_true_iff in Hw. destruct Hw as [Ha Hw].
    rewrite Ha, (IH Hw). reflexivity.
Qed.

(** No run works when what follows fails after each of them. *)
Lemma star_fail cl w k :
  forallb_str (in_class cl) w = true ->
  (forall s', forallb_str (in_class cl) s' = true -> k s' = None) ->
  star cl w k = None.
Proof.
  intros Hw Hk. induction w as [| c w IH]; simpl.
  - apply Hk. reflexivity.
  - pose proof Hw as Hw'. simpl in Hw. apply andb_true_iff in Hw.
    destruct Hw as [Hc Hw]. rewrite Hc, (IH Hw). apply Hk. exact Hw'.
Qed.

Lemma run_lit c s caps k : run (Lit c) (String c s) caps k = k s caps.
Proof. simpl. rewrite Ascii.eqb_refl. reflexivity. Qed.

Lemma run_ws w rest caps k x :
  is_ws w = true -> head_is ink rest = true ->
  k rest caps = Some x ->
  run ws (w ++ rest) caps k = Some x.
Proof. intros Hw Hr Hk. simpl. apply star_greedy; assumption. Qed.

Lemma run_ws_all w caps k x :
  is_ws w = true -> k "" caps = Some x -> run ws w caps k = Some x.
Proof.
  intros Hw Hk. rewrite <- (append_nil_r w). apply run_ws; auto.
Qed.

Lemma head_is_app p (a b : string) :
  forallb_str p a = true -> head_is p b = true -> head_is p (a ++ b) = true.
Proof.
  destruct a as [| c a]; simpl; [auto |].
  intros H _. apply andb_true_iff in H. tauto.
Qed.

Lemma head_is_all p (a : string) : forallb_str p a = true -> head_is p a = true.
Proof.
  destruct a as [| c a]; simpl; [auto |].
  intros H. apply andb_true_iff in H. tauto.
Qed.

Lemma head_is_first p (a b : string) :
  a <> "" -> forallb_str p a = true -> head_is p (a ++ b) = true.
Proof.
  destruct a as [| c a]; simpl; [congruence |].
  intros _ H. apply andb_true_iff in H. tauto.
Qed.

Lemma ws_no_digit w : is_ws w = true -> forallb_str (outside cls_digit) w = true.
Proof.
  apply forallb_str_impl. intros c H. unfold outside. simpl.
  rewrite (space_not_digit c H). reflexivity.
Qed.

Lemma int_char_ink c : int_char c = true -> ink c = true.
Proof. by_cases_on_char c. Qed.

Lemma real_char_ink c : real_char c = true -> ink c = true.
Proof. by_cases_on_char c. Qed.

Lemma digits1_inv d :
  is_digits1 d = true -> d <> "" /\ forallb_str isdigit d = true.
Proof. destruct d; simpl; [discriminate |]. intros H. split; [discriminate | exact H]. Qed.

Lemma int_lit_chars g :
  is_int_lit g = true -> g <> "" /\ forallb_str int_char g = true.
Proof.
  destruct g as [| c d]; [discriminate |]. unfold is_int_lit.
  split; [discriminate |].
  destruct (Ascii.eqb_spec c "-").
  - subst. apply digits1_inv in H. destruct H as [_ H]. simpl.
    eapply forallb_str_impl; [| exact H]. intros a Ha. unfold int_char.
    rewrite Ha. reflexivity.
  - apply digits1_inv in H. destruct H as [_ H].
    eapply forallb_str_impl; [| exact H]. intros a Ha. unfold int_char.
    rewrite Ha. reflexivity.
Qed.

Lemma real_lit_chars d :
  real_lit d -> d <> "" /\ forallb_str real_char d = true.
Proof.
  assert (Hd : forall a, forallb_str isdigit a = true ->
                         forallb_str real_char a = true).
  { intros a. apply forallb_str_impl. intros c Hc. unfold real_char.
    rewrite Hc. reflexivity. }
  intros [d' H | a b Ha Hb].
  - apply digits1_inv in H. destruct H as [H1 H2]. auto.
  - apply digits1_inv in Hb. destruct Hb as [Hb1 Hb2]. split.
    + destruct a; discriminate.
    + rewrite forallb_str_app. rewrite (Hd a Ha). simpl. apply Hd. exact Hb2.
Qed.

Lemma int_lit_head g rest : is_int_lit g = true -> head_is ink (g ++ rest) = true.
Proof.
  intros H. apply int_lit_chars in H. destruct H as [H1 H2].
  apply head_is_first; [exact H1 |].
  eapply forallb_str_impl; [apply int_char_ink | exact H2].
Qed.

Lemma real_lit_head d rest : real_lit d -> head_is ink (d ++ rest) = true.
Proof.
  intros H. apply real_lit_chars in H. destruct H as [H1 H2].
  apply head_is_first; [exact H1 |].
  eapply forallb_str_impl; [apply real_char_ink | exact H2].
Qed.

Lemma run_plus_digits cl c w rest caps k x :
  in_class cl c = true -> forallb_str (in_class cl) w = true ->
  head_is (outside cl) rest = true ->
  k rest caps = Some x ->
  run (Plus cl) (String c (w ++ rest)) caps k = Some x.
Proof.
  intros Hc Hw Hr Hk. simpl. rewrite Hc. apply star_greedy; assumption.
Qed.

Lemma run_opt r s caps k :
  run (Opt r) s caps k =
  match run r s caps k with Some x => Some x | None => k s caps end.
Proof. reflexivity. Qed.

Lemma run_cat r1 r2 s caps k :
  run (Cat r1 r2) s caps k = run r1 s caps (fun s' caps' => run r2 s' caps' k).
Proof. reflexivity. Qed.

Lemma run_group n r s caps k :
  run (Group n r) s caps k =
  run r s caps
    (fun s' caps' => k s' ((n, take (String.length s - String.length s') s) :: caps')).
Proof. reflexivity. Qed.

Lemma run_lit_other c c' s caps k :
  c <> c' -> run (Lit c) (String c' s) caps k = None.
Proof. intros H. simpl. destruct (Ascii.eqb_spec c c'); [congruence | reflexivity]. Qed.

Lemma run_int_body g rest caps k x :
  is_int_lit g = true ->
  head_is (outside cls_digit) rest = true ->
  k rest caps = Some x ->
  run (Cat (Opt (Lit "-")) (Plus cls_digit)) (g ++ rest) caps k = Some x.
Proof.
  intros Hg Hr Hk. destruct g as [| c d]; [discriminate |].
  unfold is_int_lit in Hg. rewrite run_cat, run_opt.
  destruct (Ascii.eqb_spec c "-").
  - subst c. apply digits1_inv in Hg. destruct Hg as [Hne Hd].
    destruct d as [| c d]; [congruence |].
    simpl in Hd. apply andb_true_iff in Hd. destruct Hd as [Hc Hd].
    change (String "-" (String c d) ++ rest) with (String "-" (String c (d ++ rest))).
    rewrite run_lit.
    rewrite (run_plus_digits cls_digit c d rest caps k x Hc Hd Hr Hk). reflexivity.
  - apply digits1_inv in Hg. destruct Hg as [_ Hd].
    simpl in Hd. apply andb_true_iff in Hd. destruct Hd as [Hc Hd].
    change (String c d ++ rest) with (String c (d ++ rest)).
    rewrite run_lit_other by congruence.
    apply run_plus_digits; assumption.
Qed.

Lemma run_int_re n g rest caps k x :
  is_int_lit g = true ->
  head_is (outside cls_digit) rest = true ->
  k rest ((n, g) :: caps) = Some x ->
  run (int_re n) (g ++ rest) caps k = Some x.
Proof.
  intros Hg Hr Hk. unfold int_re. rewrite run_group.
  apply (run_int_body g rest caps _ x Hg Hr).
  rewrite take_app. exact Hk.
Qed.

Lemma digits1_snoc d :
  is_digits1 d = true ->
  exists d' c, d = d' ++ String c "" /\ forallb_str isdigit d' = true /\
               isdigit c = true.
Proof.
  intros H. apply digits1_inv in H. destruct H as [Hne H].
  induction d as [| a d IH]; [congruence |].
  simpl in H. apply andb_true_iff in H. destruct H as [Ha Hd].
  destruct d as [| b d].
  - exists "", a. auto.
  - destruct (IH ltac:(discriminate) Hd) as [d' [c [E [H1 H2]]]].
    exists (String a d'), c. simpl. rewrite <- E, Ha, H1. auto.
Qed.

Lemma ws_head_outside_digit w : is_ws w = true -> head_is (outside cls_09) w = true.
Proof. intros H. apply head_is_all. apply (ws_no_digit w H). Qed.

Lemma ws_head_not c w k caps :
  isspace c = false -> is_ws w = true -> run (Lit c) w caps k = None.
Proof.
  intros Hc Hw. destruct w as [| a w]; [reflexivity |].
  apply run_lit_other. intros E. subst a. simpl in Hw.
  unfold is_ws in Hw. simpl in Hw. rewrite Hc in Hw. discriminate.
Qed.

Lemma run_plus_fail cl w caps k :
  head_is (outside cl) w = true -> run (Plus cl) w caps k = None.
Proof.
  destruct w as [| c w]; simpl; [reflexivity |].
  unfold outside. intros H. apply negb_true_iff in H. rewrite H. reflexivity.
Qed.

Lemma run_real_body d rest caps k x :
  real_lit d -> is_ws rest = true ->
  k rest caps = Some x ->
  run (seq (Star cls_09) [Opt (Lit "."); Plus cls_09]) (d ++ rest) caps k = Some x.
Proof.
  intros Hd Hr Hk. cbn [seq]. rewrite run_cat.
  pose proof (ws_head_outside_digit rest Hr) as Hrd.
  destruct Hd as [d H | a b Ha Hb].
  - apply digits1_snoc in H. destruct H as [d' [c [E [Hd' Hc]]]]. subst d.
    rewrite append_assoc. change (String c "" ++ rest) with (String c rest).
    change (run (Star cls_09) (d' ++ String c rest) caps
              (fun s' caps' => run (Cat (Opt (Lit ".")) (Plus cls_09)) s' caps' k))
      with (star cls_09 (d' ++ String c rest)
              (fun s' => run (Cat (Opt (Lit ".")) (Plus cls_09)) s' caps k)).
    apply star_back_one; try assumption.
    + rewrite run_cat, run_opt.
      rewrite (ws_head_not "." rest _ caps eq_refl Hr).
      apply run_plus_fail. exact Hrd.
    + rewrite run_cat, run_opt.
      rewrite run_lit_other by (intros E; subst c; discriminate).
      change (String c rest) with (String c ("" ++ rest)).
      apply run_plus_digits; auto.
  - apply digits1_inv in Hb. destruct Hb as [Hne Hb].
    destruct b as [| c b]; [congruence |].
    simpl in Hb. apply andb_true_iff in Hb. destruct Hb as [Hc Hb].
    rewrite !append_assoc.
    change ("." ++ String c b ++ rest) with (String "." (String c (b ++ rest))).
    change (run (Star cls_09) (a ++ String "." (String c (b ++ rest))) caps
              (fun s' caps' => run (Cat (Opt (Lit ".")) (Plus cls_09)) s' caps' k))
      with (star cls_09 (a ++ String "." (String c (b ++ rest)))
              (fun s' => run (Cat (Opt (Lit ".")) (Plus cls_09)) s' caps k)).
    apply star_greedy; [exact Ha | reflexivity |].
    rewrite run_cat, run_opt, run_lit.
    rewrite (run_plus_digits cls_09 c b rest caps k x Hc Hb Hrd Hk). reflexivity.
Qed.

Lemma run_real_re d rest caps k x :
  real_lit d -> is_ws rest = true ->
  k rest ((5%nat, d) :: caps) = Some x ->
  run (Group 5 (seq (Star cls_09) [Opt (Lit "."); Plus cls_09])) (d ++ rest) caps k
  = Some x.
Proof.
  intros Hd Hr Hk. rewrite run_group.
  apply (run_real_body d rest caps _ x Hd Hr).
  rewrite take_app. exact Hk.
Qed.

Lemma finish_ws w caps : is_ws w = true -> finish w caps = Some caps.
Proof.
  intros Hw. unfold finish. rewrite run_cat. apply run_ws_all; [exact Hw |].
  reflexivity.
Qed.

(** Without a comma the duration group does not take part. *)
Lemma duration_absent w caps k :
  is_ws w = true -> run duration_re w caps k = None.
Proof.
  intros Hw. unfold duration_re. cbn [seq]. rewrite run_cat.
  change (star cls_space w
            (fun s' => run (Cat (Lit ",") (Cat ws (Group 5
                         (Cat (Star cls_09) (Cat (Opt (Lit ".")) (Plus cls_09))))))
                         s' caps k) = None).
  apply star_fail; [exact Hw |].
  intros s' Hs'. rewrite run_cat. apply ws_head_not; [reflexivity | exact Hs'].
Qed.

Lemma run_tail tail od caps :
  tail_shape tail od ->
  run (Opt duration_re) tail caps finish =
  Some (match od with Some d => [(5%nat, d)] | None => [] end ++ caps)%list.
Proof.
  intros [w Hw | w7 w8 d w9 H7 H8 H9 Hd]; rewrite run_opt.
  - rewrite duration_absent by exact Hw. apply finish_ws. exact Hw.
  - assert (E : run duration_re (w7 ++ "," ++ w8 ++ d ++ w9) caps finish =
                Some ((5%nat, d) :: caps)).
    { unfold duration_re. cbn [seq]. rewrite run_cat.
      apply run_ws; [exact H7 | reflexivity |].
      change ("," ++ w8 ++ d ++ w9) with (String "," (w8 ++ d ++ w9)).
      rewrite run_cat, run_lit, run_cat.
      apply run_ws; [exact H8 | apply real_lit_head; exact Hd |].
      apply run_real_re; [exact Hd | exact H9 |].
      apply finish_ws. exact H9. }
    rewrite E. reflexivity.
Qed.

Lemma tail_head tail od :
  tail_shape tail od -> head_is (outside cls_digit) tail = true.
Proof.
  intros [w Hw | w7 w8 d w9 H7 H8 H9 Hd].
  - apply head_is_all. apply ws_no_digit. exact Hw.
  - apply head_is_app; [apply ws_no_digit; exact H7 | reflexivity].
Qed.

(** Every line of the grammar is matched, with its tokens as groups. *)
Theorem drag_line_re_complete line x1 y1 x2 y2 od :
  drag_shape line x1 y1 x2 y2 od ->
  re_match drag_line_re line = Some (caps_of x1 y1 x2 y2 od).
Proof.
  intros [w0 x1' w1 w2 y1' w3 w4 x2' w5 w6 y2' tail od'
            H0 H1 H2 H3 H4 H5 H6 Hx1 Hy1 Hx2 Hy2 Ht].
  unfold re_match.
  change (run drag_line_re) with
    (run (seq ws [int_re 1; ws; Lit ","; ws; int_re 2; ws; Lit "-"; Lit ">"; ws;
                  int_re 3; ws; Lit ","; ws; int_re 4; Opt duration_re; ws; Eos])).
  cbn [seq].
  rewrite run_cat. apply run_ws; [exact H0 | apply int_lit_head; exact Hx1 |].
  rewrite run_cat. apply run_int_re;
    [exact Hx1 | apply head_is_app; [apply ws_no_digit; exact H1 | reflexivity] |].
  rewrite run_cat. apply run_ws; [exact H1 | reflexivity |].
  change ("," ++ w2 ++ y1' ++ w3 ++ "->" ++ w4 ++ x2' ++ w5 ++ "," ++ w6 ++ y2' ++ tail)
    with (String "," (w2 ++ y1' ++ w3 ++ "->" ++ w4 ++ x2' ++ w5 ++ "," ++ w6 ++ y2' ++ tail)).
  rewrite run_cat, run_lit.
  rewrite run_cat. apply run_ws; [exact H2 | apply int_lit_head; exact Hy1 |].
  rewrite run_cat. apply run_int_re;
    [exact Hy1 | apply head_is_app; [apply ws_no_digit; exact H3 | reflexivity] |].
  rewrite run_cat. apply run_ws; [exact H3 | reflexivity |].
  change ("->" ++ w4 ++ x2' ++ w5 ++ "," ++ w6 ++ y2' ++ tail)
    with (String "-" (String ">" (w4 ++ x2' ++ w5 ++ "," ++ w6 ++ y2' ++ tail))).
  rewrite run_cat, run_lit, run_cat, run_lit.
  rewrite run_cat. apply run_ws; [exact H4 | apply int_lit_head; exact Hx2 |].
  rewrite run_cat. apply run_int_re;
    [exact Hx2 | apply head_is_app; [apply ws_no_digit; exact H5 | reflexivity] |].
  rewrite run_cat. apply run_ws; [exact H5 | reflexivity |].
  change ("," ++ w6 ++ y2' ++ tail) with (String "," (w6 ++ y2' ++ tail)).
  rewrite run_cat, run_lit.
  rewrite run_cat. apply run_ws; [exact H6 | apply int_lit_head; exact Hy2 |].
  rewrite run_cat. apply run_int_re; [exact Hy2 | apply (tail_head tail od' Ht) |].
  rewrite run_cat.
  apply (run_tail tail od' _ Ht).
Qed.

End ReFacts.
Import ReFacts.

(** * Properties of [int()] and [float()] on the tokens of the grammar *)

Module NumFacts.

Lemma int_char_plain c : int_char c = true -> plain c = true.
Proof. by_cases_on_char c. Qed.

Lemma real_char_plain c : real_char c = true -> plain c = true.
Proof. by_cases_on_char c. Qed.

Lemma digit_no_sign c :
  isdigit c = true -> Ascii.eqb c "-" = false /\ Ascii.eqb c "+" = false /\
                      Ascii.eqb c "." = false.
Proof. by_cases_on_char c. Qed.

Lemma drop_underscores_plain s : forall prev,
  forallb_str plain s = true -> is_underscore prev = false ->
  drop_underscores prev s = Some s.
Proof.
  induction s as [| c s IH]; intros prev Hs Hp; simpl.
  - rewrite Hp. reflexivity.
  - simpl in Hs. apply andb_true_iff in Hs. destruct Hs as [Hc Hs].
    unfold plain in Hc. apply andb_true_iff in Hc. destruct Hc as [Hu _].
    apply negb_true_iff in Hu. rewrite Hu, Hp. simpl.
    rewrite (IH (Some c) Hs Hu). reflexivity.
Qed.

Lemma lstrip_by_plain s :
  forallb_str plain s = true -> lstrip_by c_isspace s = s.
Proof.
  destruct s as [| c s]; simpl; [reflexivity |].
  intros H. apply andb_true_iff in H. destruct H as [Hc _].
  unfold plain in Hc. apply andb_true_iff in Hc. destruct Hc as [_ Hc].
  apply negb_true_iff in Hc. rewrite Hc. reflexivity.
Qed.

Lemma rstrip_by_plain s :
  forallb_str plain s = true -> rstrip_by c_isspace s = s.
Proof.
  induction s as [| c s IH]; simpl; [reflexivity |].
  intros H. apply andb_true_iff in H. destruct H as [Hc Hs].
  rewrite (IH Hs). unfold plain in Hc. apply andb_true_iff in Hc.
  destruct Hc as [_ Hc]. apply negb_true_iff in Hc. rewrite Hc.
  destruct s; reflexivity.
Qed.

Lemma span_all s :
  forallb_str isdigit s = true -> span isdigit s = (s, "").
Proof.
  induction s as [| c s IH]; simpl; [reflexivity |].
  intros H. apply andb_true_iff in H. destruct H as [Hc Hs].
  rewrite Hc, (IH Hs). reflexivity.
Qed.

Lemma span_app a rest :
  forallb_str isdigit a = true -> head_is (outside cls_digit) rest = true ->
  span isdigit (a ++ rest) = (a, rest).
Proof.
  intros Ha Hr. induction a as [| c a IH]; simpl.
  - destruct rest as [| c rest]; [reflexivity |]. simpl in Hr.
    unfold outside in Hr. simpl in Hr. apply negb_true_iff in Hr.
    simpl. rewrite Hr. reflexivity.
  - simpl in Ha. apply andb_true_iff in Ha. destruct Ha as [Hc Ha].
    rewrite Hc, (IH Ha). reflexivity.
Qed.

(** [int()] succeeds on an [<int>] token and gives the integer it denotes. *)
Lemma int_of_string_lit g :
  is_int_lit g = true -> int_of_string g = Some (int_value g).
Proof.
  intros Hg. pose proof (int_lit_chars g Hg) as [Hne Hch].
  assert (Hp : forallb_str plain g = true).
  { eapply forallb_str_impl; [apply int_char_plain | exact Hch]. }
  unfold int_of_string.
  rewrite (drop_underscores_plain g None Hp eq_refl).
  rewrite (lstrip_by_plain g Hp), (rstrip_by_plain g Hp).
  destruct g as [| c d]; [congruence |].
  unfold is_int_lit in Hg. unfold split_sign, int_value.
  destruct (Ascii.eqb c "-") eqn:Ec.
  - apply digits1_inv in Hg. destruct Hg as [Hd1 Hd2].
    unfold int_digits. rewrite Hd2. destruct d; [congruence | reflexivity].
  - apply digits1_inv in Hg. destruct Hg as [_ Hd].
    pose proof Hd as Hd'. simpl in Hd'. apply andb_true_iff in Hd'.
    destruct Hd' as [Hc _]. destruct (digit_no_sign c Hc) as [_ [Hplus _]].
    rewrite Hplus. unfold int_digits. rewrite Hd. reflexivity.
Qed.

Lemma strtod_plain d :
  is_digits1 d = true ->
  strtod d = Some (float_of_decimal false (digits_val 0 d) 0).
Proof.
  intros H. apply digits1_inv in H. destruct H as [Hne Hd].
  destruct d as [| c d]; [congruence |].
  pose proof Hd as Hd'. simpl in Hd'. apply andb_true_iff in Hd'.
  destruct Hd' as [Hc _]. destruct (digit_no_sign c Hc) as [Hm [Hp _]].
  unfold strtod, split_sign. rewrite Hm, Hp.
  rewrite (span_all _ Hd). simpl String.length. simpl Nat.eqb.
  cbv iota beta. rewrite append_nil_r. reflexivity.
Qed.

Lemma strtod_point a b :
  is_digits a = true -> is_digits1 b = true ->
  strtod (a ++ "." ++ b) =
  Some (float_of_decimal false (digits_val 0 (a ++ b))
          (0 - Z.of_nat (String.length b))).
Proof.
  intros Ha Hb. apply digits1_inv in Hb. destruct Hb as [Hne Hb].
  assert (Hs : split_sign (a ++ "." ++ b) = (false, a ++ "." ++ b)).
  { destruct a as [| c a]; [reflexivity |].
    unfold is_digits in Ha. simpl in Ha. apply andb_true_iff in Ha.
    destruct Ha as [Hc _]. destruct (digit_no_sign c Hc) as [Hm [Hp _]].
    simpl. rewrite Hm, Hp. reflexivity. }
  unfold strtod. rewrite Hs.
  rewrite (span_app a ("." ++ b) Ha eq_refl).
  change ("." ++ b) with (String "." b). cbv iota. rewrite Ascii.eqb_refl.
  rewrite (span_all b Hb).
  destruct (String.length a + String.length b =? 0)%nat eqn:E.
  - apply Nat.eqb_eq in E. destruct b; [congruence | simpl in E; lia].
  - reflexivity.
Qed.

Lemma real_value_plain d :
  is_digits1 d = true -> real_value d = float_of_decimal false (digits_val 0 d) 0.
Proof.
  intros H. apply digits1_inv in H. destruct H as [_ Hd].
  unfold real_value. rewrite (span_all d Hd). reflexivity.
Qed.

Lemma real_value_point a b :
  is_digits a = true ->
  real_value (a ++ "." ++ b) =
  float_of_decimal false (digits_val 0 (a ++ b)) (- Z.of_nat (String.length b)).
Proof.
  intros Ha. unfold real_value. rewrite (span_app a ("." ++ b) Ha eq_refl).
  reflexivity.
Qed.

(** [float()] succeeds on a [<real>] token and gives the float it denotes. *)
Lemma float_of_string_real d :
  real_lit d -> float_of_string d = Some (real_value d).
Proof.
  intros Hd. pose proof (real_lit_chars d Hd) as [Hne Hch].
  assert (Hp : forallb_str plain d = true).
  { eapply forallb_str_impl; [apply real_char_plain | exact Hch]. }
  unfold float_of_string.
  rewrite (drop_underscores_plain d None Hp eq_refl).
  rewrite (lstrip_by_plain d Hp), (rstrip_by_plain d Hp).
  destruct Hd as [d H | a b Ha Hb].
  - rewrite (strtod_plain d H), (real_value_plain d H). reflexivity.
  - rewrite (strtod_point a b Ha Hb), (real_value_point a b Ha). reflexivity.
Qed.

(** ** The sign of a rounded value *)

Lemma shr_1_nonneg mrs : 0 <= shr_m mrs -> 0 <= shr_m (shr_1 mrs).
Proof.
  destruct mrs as [m r s]. simpl.
  destruct m as [| p | p]; simpl; [lia | destruct p; simpl; lia |].
  intros H. exfalso. lia.
Qed.

Lemma iter_pos_inv {A} (P : A -> Prop) (f : A -> A) :
  (forall x, P x -> P (f x)) -> forall n x, P x -> P (iter_pos f n x).
Proof.
  intros Hf. induction n as [n IH | n IH |]; intros x Hx; simpl; auto.
Qed.

Lemma shr_nonneg mrs e n : 0 <= shr_m mrs -> 0 <= shr_m (fst (shr mrs e n)).
Proof.
  intros H. destruct n as [| p | p]; simpl; try exact H.
  apply (iter_pos_inv (fun x => 0 <= shr_m x)); [apply shr_1_nonneg | exact H].
Qed.

Lemma shr_record_of_loc_m m l : shr_m (shr_record_of_loc m l) = m.
Proof. destruct l as [| []]; reflexivity. Qed.

Lemma shr_fexp_nonneg m e l :
  0 <= m -> 0 <= shr_m (fst (shr_fexp prec emax m e l)).
Proof.
  intros H. unfold shr_fexp. apply shr_nonneg.
  rewrite shr_record_of_loc_m. exact H.
Qed.

Lemma round_nearest_even_nonneg m l : 0 <= m -> 0 <= round_nearest_even m l.
Proof.
  intros H. destruct l as [| []]; simpl; try lia.
  destruct (Z.even m); lia.
Qed.

Lemma binary_round_aux_nonneg mx ex lx :
  0 <= mx -> float_nonneg (binary_round_aux prec emax false mx ex lx) = true.
Proof.
  intros H. unfold binary_round_aux.
  pose proof (shr_fexp_nonneg mx ex lx H) as H1.
  destruct (shr_fexp prec emax mx ex lx) as [mrs' e']. simpl in H1.
  pose proof (shr_fexp_nonneg _ e' loc_Exact
                (round_nearest_even_nonneg _ (loc_of_shr_record mrs') H1)) as H2.
  destruct (shr_fexp prec emax _ e' loc_Exact) as [mrs'' e'']. simpl in H2.
  destruct (shr_m mrs'') as [| p | p].
  - reflexivity.
  - destruct (e'' <=? emax - prec); reflexivity.
  - exfalso. lia.
Qed.

Lemma div_core_nonneg num den :
  0 <= num -> 0 < den ->
  0 <= fst (fst (SFdiv_core_binary prec emax num 0 den 0)).
Proof.
  intros Hn Hd. unfold SFdiv_core_binary.
  set (e' := Z.min _ _). set (sh := 0 - 0 - e').
  set (m' := match sh with Z.pos _ => Z.shiftl num sh | 0 => num | Z.neg _ => 0 end).
  assert (Hm : 0 <= m').
  { unfold m'. destruct sh; try lia. apply Z.shiftl_nonneg. exact Hn. }
  pose proof (Z_div_mod m' den ltac:(lia)) as Hdm.
  destruct (Z.div_eucl m' den) as [q r]. simpl.
  destruct Hdm as [Heq Hr]. nia.
Qed.

Lemma round_ratio_nonneg num den :
  0 <= num -> 0 < den -> float_nonneg (round_ratio false num den) = true.
Proof.
  intros Hn Hd. unfold round_ratio.
  destruct num as [| p | p]; [reflexivity | | lia].
  pose proof (div_core_nonneg (Z.pos p) den Hn Hd) as Hq.
  destruct (SFdiv_core_binary prec emax (Z.pos p) 0 den 0) as [[q e] l].
  simpl in Hq. apply binary_round_aux_nonneg. exact Hq.
Qed.

Lemma float_of_decimal_nonneg m e10 :
  0 <= m -> float_nonneg (float_of_decimal false m e10) = true.
Proof.
  intros Hm. unfold float_of_decimal. destruct (0 <=? e10) eqn:E.
  - apply Z.leb_le in E. apply round_ratio_nonneg; [| lia].
    apply Z.mul_nonneg_nonneg; [exact Hm |]. apply Z.pow_nonneg. lia.
  - apply Z.leb_gt in E. apply round_ratio_nonneg; [exact Hm |].
    apply Z.pow_pos_nonneg; lia.
Qed.

Lemma digit_val_nonneg c : isdigit c = true -> 0 <= digit_val c.
Proof.
  unfold isdigit, digit_val. intros H. apply andb_true_iff in H.
  destruct H as [H _]. apply Nat.leb_le in H. lia.
Qed.

Lemma digits_val_nonneg s : forall acc,
  forallb_str isdigit s = true -> 0 <= acc -> 0 <= digits_val acc s.
Proof.
  induction s as [| c s IH]; intros acc Hs Ha; cbn [digits_val]; [exact Ha |].
  cbn [forallb_str] in Hs. apply andb_true_iff in Hs. destruct Hs as [Hc Hs].
  apply IH; [exact Hs |]. pose proof (digit_val_nonneg c Hc). lia.
Qed.

(** The float of a [<real>] token is never negative and never NaN. *)
Lemma real_value_nonneg d : real_lit d -> float_nonneg (real_value d) = true.
Proof.
  intros [d' H | a b Ha Hb].
  - rewrite (real_value_plain d' H). apply float_of_decimal_nonneg.
    apply digits1_inv in H. destruct H as [_ H].
    apply digits_val_nonneg; [exact H | lia].
  - rewrite (real_value_point a b Ha). apply float_of_decimal_nonneg.
    apply digits1_inv in Hb. destruct Hb as [_ Hb].
    apply digits_val_nonneg; [| lia].
    rewrite forallb_str_app. unfold is_digits in Ha. rewrite Ha, Hb. reflexivity.
Qed.

(** ** The conversions on some literals *)

Example float_rounds_to_nearest :
  float_of_string "0.30000000000000004" = Some (S754_finite false 5404319552844596 (-54)) /\
  float_of_string "1.5" = Some (S754_finite false 6755399441055744 (-52)) /\
  float_of_string "5." = Some five /\
  float_of_string ".5" = Some half /\
  float_of_string " 5 " = Some five /\
  float_of_string "1_0.5" = Some (S754_finite false 5910974510923776 (-49)).
Proof. repeat split; vm_compute; reflexivity. Qed.

(** [2 ^ 53 + 1] lies half way between two floats and goes to the even
    one. *)
Example float_ties_to_even :
  float_of_string "9007199254740993" = Some (S754_finite false 4503599627370496 1).
Proof. vm_compute. reflexivity. Qed.

Example float_range :
  float_of_string "1.7976931348623157e308" = Some (S754_finite false 9007199254740991 971) /\
  float_of_string "1.7976931348623159e308" = Some (S754_infinity false) /\
  float_of_string "1e400" = Some (S754_infinity false) /\
  float_of_string "4.9e-324" = Some (S754_finite false 1 (-1074)) /\
  float_of_string "2.4703282292062327e-324" = Some (S754_zero false) /\
  float_of_string "-1e-400" = Some (S754_zero true).
Proof. repeat split; vm_compute; reflexivity. Qed.

Example float_special_values :
  float_of_string "inf" = Some (S754_infinity false) /\
  float_of_string "-Infinity" = Some (S754_infinity true) /\
  float_of_string "+NaN" = Some S754_nan /\
  float_of_string "infinit" = None.
Proof. repeat split; vm_compute; reflexivity. Qed.

Example float_refuses :
  float_of_string "" = None /\
  float_of_string "." = None /\
  float_of_string "+" = None /\
  float_of_string "1e" = None /\
  float_of_string "e5" = None /\
  float_of_string "0x10" = None /\
  float_of_string "1__0" = None /\
  float_of_string "_1" = None /\
  float_of_string "1_" = None /\
  float_of_string "1 2" = None.
Proof. repeat split; vm_compute; reflexivity. Qed.

Example int_conversions :
  int_of_string " -0012 " = Some (-12) /\
  int_of_string "+1_000" = Some 1000 /\
  int_of_string "-" = None /\
  int_of_string "1.0" = None /\
  int_of_string "" = None.
Proof. repeat split; vm_compute; reflexivity. Qed.

End NumFacts.
Import NumFacts.

(** * Properties of the parser *)

Module ParseFacts.

Lemma upper_is_S c : Ascii.eqb "S" (upper_char c) = letter "S" "s" c.
Proof. by_cases_on_char c. Qed.

Lemma upper_is_L c : Ascii.eqb "L" (upper_char c) = letter "L" "l" c.
Proof. by_cases_on_char c. Qed.

Lemma upper_is_E c : Ascii.eqb "E" (upper_char c) = letter "E" "e" c.
Proof. by_cases_on_char c. Qed.

Lemma upper_is_P c : Ascii.eqb "P" (upper_char c) = letter "P" "p" c.
Proof. by_cases_on_char c. Qed.

Lemma letter_S_not_hash c : letter "S" "s" c = true -> Ascii.eqb "#" c = false.
Proof. by_cases_on_char c. Qed.

(** The test of the source, [line.upper().startswith("SLEEP")], is the
    case-insensitive keyword test. *)
Lemma startswith_upper_sleep line :
  startswith (upper line) "SLEEP" = has_sleep_keyword line.
Proof.
  destruct line as [| c1 [| c2 [| c3 [| c4 [| c5 r]]]]];
    cbn [upper smap startswith has_sleep_keyword];
    rewrite ?upper_is_S, ?upper_is_L, ?upper_is_E, ?upper_is_P;
    rewrite ?andb_false_r; try reflexivity.
  replace (startswith (smap upper_char r) "") with true
    by (destruct (smap upper_char r); reflexivity).
  rewrite andb_true_r, !andb_assoc. reflexivity.
Qed.

Lemma keyword_not_skipped line :
  has_sleep_keyword line = true ->
  String.eqb line "" || startswith line "#" = false.
Proof.
  destruct line as [| c1 r]; [discriminate |]. intros H.
  assert (Hc : letter "S" "s" c1 = true).
  { destruct r as [| c2 [| c3 [| c4 [| c5 r]]]];
      cbn [has_sleep_keyword] in H; try discriminate.
    repeat (apply andb_true_iff in H; destruct H as [H ?]). exact H. }
  cbn [String.eqb startswith]. rewrite (letter_S_not_hash c1 Hc). reflexivity.
Qed.

Lemma parse_line_sleep path idx raw :
  has_sleep_keyword (strip raw) = true ->
  parse_line path idx raw = sleep_outcome path idx (strip raw).
Proof.
  intros H. unfold parse_line, sleep_outcome.
  rewrite (keyword_not_skipped _ H), startswith_upper_sleep, H.
  destruct (split (strip raw)) as [| a [| b [| c l]]]; reflexivity.
Qed.

Lemma parse_line_other path idx raw :
  String.eqb (strip raw) "" || startswith (strip raw) "#" = false ->
  has_sleep_keyword (strip raw) = false ->
  parse_line path idx raw = drag_outcome path idx (strip raw).
Proof.
  intros H1 H2. unfold parse_line, drag_outcome.
  rewrite H1, startswith_upper_sleep, H2. reflexivity.
Qed.

Lemma parse_line_skip path idx raw :
  String.eqb (strip raw) "" || startswith (strip raw) "#" = true ->
  parse_line path idx raw = Skip.
Proof. intros H. unfold parse_line. rewrite H. reflexivity. Qed.

Lemma tail_shape_real tail d : tail_shape tail (Some d) -> real_lit d.
Proof. intros H. inversion H; subst. assumption. Qed.

Lemma drag_outcome_shape path idx line x1 y1 x2 y2 od :
  drag_shape line x1 y1 x2 y2 od ->
  drag_outcome path idx line = Emit (drag_of x1 y1 x2 y2 od).
Proof.
  intros H. unfold drag_outcome.
  rewrite (drag_line_re_complete line x1 y1 x2 y2 od H).
  inversion H as [w0 x1' w1 w2 y1' w3 w4 x2' w5 w6 y2' tail od'
                     H0 H1 H2 H3 H4 H5 H6 Hx1 Hy1 Hx2 Hy2 Ht]; subst.
  assert (G : forall n g, group n (caps_of x1 y1 x2 y2 od) = Some g ->
                          is_int_lit g = true ->
                          int_group n (caps_of x1 y1 x2 y2 od) = inr (int_value g)).
  { intros n g Hn Hg. unfold int_group. rewrite Hn, (int_of_string_lit g Hg).
    reflexivity. }
  rewrite (G 1%nat x1), (G 2%nat y1), (G 3%nat x2), (G 4%nat y2);
    try assumption; try (destruct od; reflexivity).
  destruct od as [d |].
  - change (group 5 (caps_of x1 y1 x2 y2 (Some d))) with (Some d). cbv iota beta.
    rewrite (float_of_string_real d (tail_shape_real _ _ Ht)). reflexivity.
  - reflexivity.
Qed.

Lemma drag_outcome_cases path idx line :
  (exists x1 y1 x2 y2 od,
      drag_shape line x1 y1 x2 y2 od /\
      drag_outcome path idx line = Emit (drag_of x1 y1 x2 y2 od)) \/
  ((forall x1 y1 x2 y2 od, ~ drag_shape line x1 y1 x2 y2 od) /\
   drag_outcome path idx line = Raise (ValueError (msg_invalid_line path idx line))).
Proof.
  destruct (re_match drag_line_re line) as [m |] eqn:E.
  - left. apply drag_line_re_sound in E.
    destruct E as [x1 [y1 [x2 [y2 [od [Hs _]]]]]].
    exists x1, y1, x2, y2, od. split; [exact Hs |].
    apply drag_outcome_shape. exact Hs.
  - right. split.
    + intros x1 y1 x2 y2 od Hs.
      rewrite (drag_line_re_complete _ _ _ _ _ _ Hs) in E. discriminate.
    + unfold drag_outcome. rewrite E. reflexivity.
Qed.

(** ** Trimming a line of the grammar *)

Lemma int_lit_ink g : is_int_lit g = true -> forallb_str ink g = true.
Proof.
  intros H. apply int_lit_chars in H. destruct H as [_ H].
  eapply forallb_str_impl; [apply int_char_ink | exact H].
Qed.

Lemma real_lit_ink d : real_lit d -> forallb_str ink d = true.
Proof.
  intros H. apply real_lit_chars in H. destruct H as [_ H].
  eapply forallb_str_impl; [apply real_char_ink | exact H].
Qed.

Lemma int_lit_not_ws g : is_int_lit g = true -> forallb_str isspace g = false.
Proof.
  intros H. apply ink_not_ws; [apply (int_lit_chars g H) | apply int_lit_ink; exact H].
Qed.

Lemma real_lit_not_ws d : real_lit d -> forallb_str isspace d = false.
Proof.
  intros H. apply ink_not_ws; [apply (real_lit_chars d H) | apply real_lit_ink; exact H].
Qed.

(** Some character of the text is not white space. *)
Ltac inky :=
  first [ reflexivity
        | apply not_ws_app_l;
          first [ reflexivity
                | apply int_lit_not_ws; assumption
                | apply real_lit_not_ws; assumption ]
        | apply not_ws_app_r; inky ].

Lemma rstrip_tail y tail od :
  is_int_lit y = true -> tail_shape tail od ->
  exists tail', tail_shape tail' od /\
                rstrip_by isspace (y ++ tail) = y ++ tail'.
Proof.
  intros Hy [w Hw | w7 w8 d w9 H7 H8 H9 Hd].
  - exists "". split; [apply tail_none; reflexivity |].
    rewrite append_nil_r. apply rstrip_ink_ws; [apply int_lit_ink; exact Hy | exact Hw].
  - exists (w7 ++ "," ++ w8 ++ d ++ ""). split.
    + apply tail_some; auto.
    + rewrite rstrip_app_keep by inky.
      rewrite rstrip_app_keep by inky.
      rewrite rstrip_app_keep by inky.
      rewrite rstrip_app_keep by inky.
      rewrite (rstrip_ink_ws d w9 (real_lit_ink d Hd) H9).
      rewrite append_nil_r. reflexivity.
Qed.

(** Trimming keeps a line of the grammar in the grammar, with its tokens. *)
Lemma strip_shape raw x1 y1 x2 y2 od :
  drag_shape raw x1 y1 x2 y2 od -> drag_shape (strip raw) x1 y1 x2 y2 od.
Proof.
  intros H.
  inversion H as [w0 x1' w1 w2 y1' w3 w4 x2' w5 w6 y2' tail od'
                     H0 H1 H2 H3 H4 H5 H6 Hx1 Hy1 Hx2 Hy2 Ht]; subst.
  unfold strip. rewrite (lstrip_ws w0) by exact H0.
  rewrite lstrip_head by (apply int_lit_head; exact Hx1).
  destruct (rstrip_tail y2 tail od Hy2 Ht) as [tail' [Ht' E]].
  do 12 (rewrite rstrip_app_keep by inky).
  rewrite E.
  apply (drag_shape_intro "" x1 w1 w2 y1 w3 w4 x2 w5 w6 y2 tail' od); auto.
Qed.








(** Outside the grammar: a plus sign, an exponent, a point without digits
    after it. *)
Example plus_sign_is_invalid :
  parse_line "m" 1 "+1,2 -> 3,4" =
    Raise (ValueError "m:1: Invalid line. Expected 'x1,y1 -> x2,y2[,duration]'. Got: +1,2 -> 3,4").
Proof. reflexivity. Qed.

Example exponent_is_invalid :
  parse_line "m" 1 "1,2 -> 3,4,1e3" =
    Raise (ValueError "m:1: Invalid line. Expected 'x1,y1 -> x2,y2[,duration]'. Got: 1,2 -> 3,4,1e3").
Proof. reflexivity. Qed.

Example trailing_point_is_invalid :
  parse_line "m" 1 "1,2 -> 3,4,5." =
    Raise (ValueError "m:1: Invalid line. Expected 'x1,y1 -> x2,y2[,duration]'. Got: 1,2 -> 3,4,5.").
Proof. reflexivity. Qed.











(** ** Splitting a SLEEP line *)

Lemma split_from_ink y : forall t rest,
  forallb_str ink y = true ->
  split_from t (y ++ rest) = split_from (t ++ y) rest.
Proof.
  induction y as [| c y IH]; intros t rest H; simpl.
  - rewrite append_nil_r. reflexivity.
  - simpl in H. apply andb_true_iff in H. destruct H as [Hc Hy].
    unfold ink in Hc. apply negb_true_iff in Hc. rewrite Hc.
    rewrite (IH _ _ Hy), append_assoc. reflexivity.
Qed.

Lemma split_from_ws w rest :
  is_ws w = true -> split_from "" (w ++ rest) = split_from "" rest.
Proof.
  induction w as [| c w IH]; simpl; [reflexivity |].
  unfold is_ws. simpl. intros H. apply andb_true_iff in H.
  destruct H as [Hc Hw]. rewrite Hc. apply IH. exact Hw.
Qed.

Lemma split_from_sep t w rest :
  t <> "" -> is_ws w = true -> w <> "" ->
  split_from t (w ++ rest) = t :: split_from "" rest.
Proof.
  intros Ht Hw Hne. destruct w as [| c w]; [congruence |].
  unfold is_ws in Hw. simpl in Hw. apply andb_true_iff in Hw.
  destruct Hw as [Hc Hw]. simpl. rewrite Hc.
  destruct t; [congruence |]. rewrite (split_from_ws w rest Hw). reflexivity.
Qed.

Lemma split_keyword_token w1 tok :
  is_ws w1 = true -> w1 <> "" -> forallb_str ink tok = true -> tok <> "" ->
  split ("SLEEP" ++ w1 ++ tok) = ["SLEEP"; tok].
Proof.
  intros Hw Hne Ht Htne. unfold split.
  rewrite (split_from_ink "SLEEP" "" (w1 ++ tok) eq_refl).
  rewrite (split_from_sep _ w1 tok) by (try assumption; discriminate).
  rewrite <- (append_nil_r tok) at 1. rewrite (split_from_ink tok "" "" Ht).
  simpl. destruct tok; [congruence | reflexivity].
Qed.

(** C9.  The argument of SLEEP is handed to [float] as it stands: every
    token that [float] accepts (white space apart, which cannot occur in a
    token) gives a Sleep step that carries the float [float] returned,
    whatever it is: negative, from exponent notation, infinite or NaN. *)
Theorem sleep_accepts_any_float path idx w0 w1 tok w2 v :
  is_ws w0 = true -> is_ws w1 = true -> w1 <> "" -> is_ws w2 = true ->
  forallb_str ink tok = true ->
  float_of_string tok = Some v ->
  parse_line path idx (w0 ++ "SLEEP" ++ w1 ++ tok ++ w2) = Emit (Sleep v).
Proof.
  intros H0 H1 Hne H2 Ht Hv.
  assert (Htne : tok <> "") by (intros E; subst tok; discriminate).
  assert (Hs : strip (w0 ++ "SLEEP" ++ w1 ++ tok ++ w2) = "SLEEP" ++ w1 ++ tok).
  { unfold strip. rewrite (lstrip_ws w0) by exact H0.
    rewrite lstrip_head by reflexivity.
    assert (Hi : forallb_str isspace (tok ++ w2) = false)
      by (apply not_ws_app_l, ink_not_ws; assumption).
    rewrite (rstrip_app_keep "SLEEP") by (apply not_ws_app_r; exact Hi).
    rewrite (rstrip_app_keep w1) by exact Hi.
    rewrite (rstrip_ink_ws tok w2 Ht H2). reflexivity. }
  rewrite parse_line_sleep; rewrite Hs; [| reflexivity].
  unfold sleep_outcome.
  rewrite (split_keyword_token w1 tok H1 Hne Ht Htne), Hv. reflexivity.
Qed.

Lemma sleep_accepts_any_float_witness :
  parse_line "motions.txt" 1 "SLEEP -5" = Emit (Sleep minus_five).
Proof.
  apply (sleep_accepts_any_float "motions.txt" 1 "" " " "-5" "" minus_five);
    try reflexivity.
  discriminate.
Defined.

Example sleep_exponent :
  parse_line "motions.txt" 1 "SLEEP 1e3" =
    Emit (Sleep (S754_finite false 8796093022208000 (-43))).
Proof. reflexivity. Qed.

Example sleep_inf : parse_line "motions.txt" 1 "SLEEP inf" = Emit (Sleep (S754_infinity false)).
Proof. reflexivity. Qed.

Example sleep_nan : parse_line "motions.txt" 1 "SLEEP nan" = Emit (Sleep S754_nan).
Proof. reflexivity. Qed.

(** ** Errors *)

Lemma parse_line_raise path idx raw e :
  parse_line path idx raw = Raise e ->
  e = ValueError (msg_sleep_arity path idx (strip raw)) \/
  (exists kw tok, split (strip raw) = [kw; tok] /\
                  e = ValueError (msg_sleep_seconds path idx tok)) \/
  e = ValueError (msg_invalid_line path idx (strip raw)).
Proof.
  intros H.
  destruct (has_sleep_keyword (strip raw)) eqn:Hk.
  - rewrite (parse_line_sleep path idx raw Hk) in H. unfold sleep_outcome in H.
    destruct (split (strip raw)) as [| a [| b [| c l]]];
      try (inversion H; subst; left; reflexivity).
    destruct (float_of_string b); [discriminate |].
    inversion H; subst. right. left. exists a, b. auto.
  - destruct (String.eqb (strip raw) "" || startswith (strip raw) "#") eqn:E.
    + rewrite (parse_line_skip path idx raw E) in H. discriminate.
    + rewrite (parse_line_other path idx raw E Hk) in H.
      destruct (drag_outcome_cases path idx (strip raw))
        as [[x1 [y1 [x2 [y2 [od [_ Ho]]]]]] | [_ Ho]]; rewrite Ho in H.
      * discriminate.
      * inversion H; subst. right. right. reflexivity.
Qed.

Lemma parse_lines_app path good : forall idx acc steps rest,
  parse_lines path idx good acc = inr steps ->
  parse_lines path idx (good ++ rest)%list acc =
  parse_lines path (idx + List.length good) rest steps.
Proof.
  induction good as [| raw good IH]; intros idx acc steps rest H; simpl in *.
  - inversion H; subst. rewrite Nat.add_0_r. reflexivity.
  - destruct (parse_line path idx raw) as [| s | e]; try discriminate.
    + rewrite (IH _ _ _ rest H). f_equal. lia.
    + rewrite (IH _ _ _ rest H). f_equal. lia.
Qed.

(** C4, as amended.  When the lines before a malformed line parse, the
    parser stops at that line: the result is the error alone, whatever
    follows and whatever was parsed before.  The message starts with the
    path and the 1-based number of the line, and goes on with the reason
    and the offending text, which is the trimmed line for the arity error
    and the invalid-line error, and the second token for "Invalid SLEEP
    seconds". *)
Theorem first_error_is_reported path good bad rest steps e :
  parse_lines path 1 good [] = inr steps ->
  parse_line path (S (List.length good)) bad = Raise e ->
  parse_lines path 1 (good ++ bad :: rest)%list [] = inl e /\
  (e = ValueError (path ++ ":" ++ str_of_nat (S (List.length good)) ++ ": "
                   ++ "SLEEP requires one numeric value (seconds). Got: "
                   ++ strip bad) \/
   (exists kw tok,
       split (strip bad) = [kw; tok] /\
       e = ValueError (path ++ ":" ++ str_of_nat (S (List.length good)) ++ ": "
                       ++ "Invalid SLEEP seconds: " ++ tok)) \/
   e = ValueError (path ++ ":" ++ str_of_nat (S (List.length good)) ++ ": "
                   ++ "Invalid line. Expected 'x1,y1 -> x2,y2[,duration]'. Got: "
                   ++ strip bad)).
Proof.
  intros Hg Hb. split.
  - rewrite (parse_lines_app path good 1 [] steps (bad :: rest) Hg).
    simpl. rewrite Hb. reflexivity.
  - apply parse_line_raise in Hb.
    unfold msg_sleep_arity, msg_sleep_seconds, msg_invalid_line, msg_prefix in Hb.
    destruct Hb as [Hb | [[kw [tok [Hs Hb]]] | Hb]];
      rewrite !append_assoc in Hb; subst e.
    + left. reflexivity.
    + right. left. exists kw, tok. split; [exact Hs | reflexivity].
    + right. right. reflexivity.
Qed.

Lemma first_error_is_reported_witness :
  parse_lines "motions.txt" 1 ["# start"; " 1,2 -> 3,4"; "  1,2 > 3,4 "; "junk"] [] =
    inl (ValueError
      "motions.txt:3: Invalid line. Expected 'x1,y1 -> x2,y2[,duration]'. Got: 1,2 > 3,4").
Proof.
  apply (first_error_is_reported "motions.txt" ["# start"; " 1,2 -> 3,4"]
           "  1,2 > 3,4 " ["junk"] [Drag 1 2 3 4 None]); reflexivity.
Defined.

(** C4 as stated fails: the message holds the trimmed line, or only the
    second token of a SLEEP line, never the raw line when that differs. *)
Lemma raw_line_is_not_reported :
  parse_file "motions.txt" "  SLEEP x" =
    inl (ValueError "motions.txt:1: Invalid SLEEP seconds: x") /\
  contains "motions.txt:1: Invalid SLEEP seconds: x" "  SLEEP x" = false /\
  parse_file "motions.txt" "   1,2 > 3,4" =
    inl (ValueError
      "motions.txt:1: Invalid line. Expected 'x1,y1 -> x2,y2[,duration]'. Got: 1,2 > 3,4") /\
  contains
    "motions.txt:1: Invalid line. Expected 'x1,y1 -> x2,y2[,duration]'. Got: 1,2 > 3,4"
    "   1,2 > 3,4" = false.
Proof. split; [| split; [| split]]; vm_compute; reflexivity. Qed.

(** ** The steps the parser produces *)

Lemma parse_line_emit_ok path idx raw s :
  parse_line path idx raw = Emit s -> step_ok s.
Proof.
  intros H.
  destruct (has_sleep_keyword (strip raw)) eqn:Hk.
  - rewrite (parse_line_sleep path idx raw Hk) in H. unfold sleep_outcome in H.
    destruct (split (strip raw)) as [| a [| b [| c l]]]; try discriminate.
    destruct (float_of_string b); [| discriminate].
    inversion H; subst. exact I.
  - destruct (String.eqb (strip raw) "" || startswith (strip raw) "#") eqn:E.
    + rewrite (parse_line_skip path idx raw E) in H. discriminate.
    + rewrite (parse_line_other path idx raw E Hk) in H.
      destruct (drag_outcome_cases path idx (strip raw))
        as [[x1 [y1 [x2 [y2 [od [Hs Ho]]]]]] | [_ Ho]]; rewrite Ho in H.
      * inversion H; subst. destruct od as [d |]; [| exact I].
        simpl. apply real_value_nonneg.
        inversion Hs; subst. eapply tail_shape_real. eassumption.
      * discriminate.
Qed.

Lemma parse_lines_ok path lines : forall idx acc steps,
  Forall step_ok acc ->
  parse_lines path idx lines acc = inr steps -> Forall step_ok steps.
Proof.
  induction lines as [| raw lines IH]; intros idx acc steps Ha H; simpl in H.
  - inversion H; subst. exact Ha.
  - destruct (parse_line path idx raw) as [| s | e] eqn:E; try discriminate.
    + apply (IH _ _ _ Ha H).
    + apply (IH _ _ _ (proj2 (Forall_app _ _ _)
                         (conj Ha (Forall_cons _ (parse_line_emit_ok _ _ _ _ E)
                                     (Forall_nil _)))) H).
Qed.

(** C8, as amended.  In every step sequence the parser returns, a Drag
    step has integer coordinates (they are of type [Z]) and its duration,
    when present, is a float that is neither negative nor NaN: [+0], a
    positive finite number, or [+inf]. *)
Theorem parsed_durations_nonneg path content steps x1 y1 x2 y2 d :
  parse_file path content = inr steps ->
  In (Drag x1 y1 x2 y2 (Some d)) steps ->
  float_nonneg d = true.
Proof.
  intros Hp Hin. unfold parse_file in Hp.
  apply (parse_lines_ok path _ 1%nat [] steps (Forall_nil _)) in Hp.
  rewrite Forall_forall in Hp. apply (Hp _ Hin).
Qed.

Lemma parsed_durations_nonneg_witness : float_nonneg half = true.
Proof.
  apply (parsed_durations_nonneg "motions.txt" " 1, -2 -> 30 ,4 , .5 "
           [Drag 1 (-2) 30 4 (Some half)] 1 (-2) 30 4 half).
  - reflexivity.
  - left. reflexivity.
Defined.

(** C8 as stated fails: a duration literal beyond the range of binary64 is
    read as [+inf], which is not a real number. *)
Lemma overflowing_duration_is_infinite :
  parse_file "motions.txt" ("1,2 -> 3,4," ++ huge_duration) =
    inr [Drag 1 2 3 4 (Some (S754_infinity false))] /\
  float_finite (S754_infinity false) = false.
Proof. split; vm_compute; reflexivity. Qed.

(** [tenth] is a binary64 number nearest to one tenth: it is within half a
    unit in the last place, [2 ^ -57]. *)
Example tenth_is_nearest :
  float_of_string "0.1" = Some tenth /\
  2 ^ 57 * Z.abs (10 * 7205759403792794 - 2 ^ 56) <= 10 * 2 ^ 56.
Proof. split; [reflexivity | vm_compute; discriminate]. Qed.

Example one_second_is_one : float_of_string "1.0" = Some one_second.
Proof. reflexivity. Qed.

(** C7.  The three-line example parses to the two Drag steps of one second
    with the Sleep step of a tenth of a second between them, and running
    that sequence with no delay between segments and no abort makes
    exactly these backend calls: the move to (-660, 663) and the press,
    the eased move to (-961, 494) over one second, the sleep of a tenth of
    a second, the eased move to (-1260, 494) over one second, and the
    release. *)
Theorem example_file_runs path default_duration button :
  parse_file path example_content = inr example_steps /\
  calls (fst (run_single_hold default_duration pos_zero example_steps button
                undisturbed [])) =
    [ moveTo (-660) 663 None None;
      mouseDown (normalize_button button);
      moveTo (-961) 494 (Some one_second) (Some easeInOutQuad);
      sleep tenth;
      moveTo (-1260) 494 (Some one_second) (Some easeInOutQuad);
      mouseUp (normalize_button button) ].
Proof. split; reflexivity. Qed.

End ParseFacts.
Import ParseFacts.

(** * Laws of the parser over whole files *)

Module ParseLaws.

Lemma rstrip_app_ws s w :
  is_ws w = true -> rstrip_by isspace (s ++ w) = rstrip_by isspace s.
Proof.
  intros Hw. induction s as [| c s IH]; simpl.
  - apply rstrip_ws. exact Hw.
  - rewrite IH. reflexivity.
Qed.

Lemma strip_app_ws s w :
  is_ws w = true ->
  rstrip_by isspace (lstrip_by isspace (s ++ w)) =
  rstrip_by isspace (lstrip_by isspace s).
Proof.
  intros Hw. induction s as [| c s IH]; simpl.
  - rewrite <- (append_nil_r w). rewrite (lstrip_ws w "" Hw). reflexivity.
  - destruct (isspace c); [exact IH |].
    change (String c (s ++ w)) with (String c s ++ w).
    apply rstrip_app_ws. exact Hw.
Qed.

Lemma strip_pad w raw w' :
  is_ws w = true -> is_ws w' = true -> strip (w ++ raw ++ w') = strip raw.
Proof.
  intros Hw Hw'. unfold strip. rewrite (lstrip_ws w _ Hw).
  apply strip_app_ws. exact Hw'.
Qed.

(** Indentation, trailing blanks and the line terminator do not matter:
    white space added around a line changes neither what the line means
    nor the error it gives. *)
Theorem surrounding_space_is_ignored path idx w raw w' :
  is_ws w = true -> is_ws w' = true ->
  parse_line path idx (w ++ raw ++ w') = parse_line path idx raw.
Proof.
  intros Hw Hw'. unfold parse_line. rewrite (strip_pad w raw w' Hw Hw').
  reflexivity.
Qed.

Lemma surrounding_space_is_ignored_witness :
  parse_line "motions.txt" 2 ("  " ++ "1,2 -> 3,4,.5" ++ String CR (String LF "")) =
  parse_line "motions.txt" 2 "1,2 -> 3,4,.5".
Proof.
  apply (surrounding_space_is_ignored "motions.txt" 2 "  " "1,2 -> 3,4,.5"
           (String CR (String LF ""))); reflexivity.
Defined.

(** ** One line, whatever the path and the line number *)

Lemma parse_line_skip_iff path idx raw :
  parse_line path idx raw = Skip <-> is_skipped raw = true.
Proof.
  split.
  - intros H. unfold is_skipped.
    destruct (String.eqb (strip raw) "" || startswith (strip raw) "#") eqn:E;
      [reflexivity |].
    exfalso. destruct (has_sleep_keyword (strip raw)) eqn:Hk.
    + rewrite (parse_line_sleep path idx raw Hk) in H. unfold sleep_outcome in H.
      destruct (split (strip raw)) as [| a [| b [| c l]]]; try discriminate.
      destruct (float_of_string b); discriminate.
    + rewrite (parse_line_other path idx raw E Hk) in H.
      destruct (drag_outcome_cases path idx (strip raw))
        as [[x1 [y1 [x2 [y2 [od [_ Ho]]]]]] | [_ Ho]]; rewrite Ho in H;
        discriminate.
  - intros H. apply parse_line_skip. exact H.
Qed.

(** The same line gives the same step under another path and another line
    number; only the text of an error depends on them. *)
Lemma parse_line_relocate path idx path' idx' raw :
  match parse_line path idx raw with
  | Skip => parse_line path' idx' raw = Skip
  | Emit s => parse_line path' idx' raw = Emit s
  | Raise _ => exists e', parse_line path' idx' raw = Raise e'
  end.
Proof.
  destruct (String.eqb (strip raw) "" || startswith (strip raw) "#") eqn:E.
  - rewrite !(parse_line_skip _ _ raw E). reflexivity.
  - destruct (has_sleep_keyword (strip raw)) eqn:Hk.
    + rewrite !(parse_line_sleep _ _ raw Hk). unfold sleep_outcome.
      destruct (split (strip raw)) as [| a [| b [| c l]]]; eauto.
      destruct (float_of_string b); eauto.
    + rewrite !(parse_line_other _ _ raw E Hk).
      destruct (drag_outcome_cases path idx (strip raw))
        as [[x1 [y1 [x2 [y2 [od [Hs Ho]]]]]] | [Hn Ho]]; rewrite Ho.
      * apply drag_outcome_shape. exact Hs.
      * destruct (drag_outcome_cases path' idx' (strip raw))
          as [[x1 [y1 [x2 [y2 [od [Hs _]]]]]] | [_ Ho']].
        -- exfalso. apply (Hn _ _ _ _ _ Hs).
        -- rewrite Ho'. eauto.
Qed.

Lemma parse_lines_relocate path lines : forall idx path' idx' acc steps,
  parse_lines path idx lines acc = inr steps ->
  parse_lines path' idx' lines acc = inr steps.
Proof.
  induction lines as [| raw lines IH]; intros idx path' idx' acc steps H;
    simpl in *; [exact H |].
  pose proof (parse_line_relocate path idx path' idx' raw) as R.
  destruct (parse_line path idx raw) as [| s | e]; try discriminate;
    rewrite R; eapply IH; exact H.
Qed.

Lemma parse_lines_acc path lines : forall idx acc steps,
  parse_lines path idx lines acc = inr steps <->
  exists more, parse_lines path idx lines [] = inr more /\ steps = (acc ++ more)%list.
Proof.
  induction lines as [| raw lines IH]; intros idx acc steps; simpl.
  - split.
    + intros H. inversion H; subst. exists []. rewrite app_nil_r. auto.
    + intros [more [H E]]. inversion H; subst. rewrite app_nil_r. reflexivity.
  - destruct (parse_line path idx raw) as [| s | e].
    + apply IH.
    + split.
      * intros H. apply IH in H. destruct H as [more [H E]].
        exists (s :: more). split.
        -- apply IH. exists more. auto.
        -- rewrite E, <- app_assoc. reflexivity.
      * intros [more [H E]]. apply IH in H. destruct H as [m' [H E']].
        apply IH. exists m'. split; [exact H |].
        rewrite E, E', <- app_assoc. reflexivity.
    + split; [discriminate | intros [more [H _]]; discriminate].
Qed.

(** Blank lines and comments carry nothing: a file parses to given steps
    exactly when the file without them does. *)
Theorem comments_are_transparent path lines : forall idx acc steps,
  parse_lines path idx lines acc = inr steps <->
  parse_lines path idx (filter carries_step lines) acc = inr steps.
Proof.
  induction lines as [| raw lines IH]; intros idx acc steps; simpl.
  - tauto.
  - unfold carries_step at 1. destruct (is_skipped raw) eqn:E; simpl.
    + rewrite (proj2 (parse_line_skip_iff path idx raw) E).
      rewrite (IH (S idx) acc steps). split; apply parse_lines_relocate.
    + destruct (parse_line path idx raw) as [| s | e] eqn:P.
      * apply parse_line_skip_iff in P. congruence.
      * apply IH.
      * tauto.
Qed.

(** The steps come in the order of the file, one for each line that is
    neither blank nor a comment. *)
Theorem steps_follow_the_lines path lines : forall idx steps,
  parse_lines path idx lines [] = inr steps ->
  Forall2 (fun raw s => forall path' idx', parse_line path' idx' raw = Emit s)
          (filter carries_step lines) steps.
Proof.
  induction lines as [| raw lines IH]; intros idx steps H; simpl in H.
  - inversion H; subst. constructor.
  - simpl. unfold carries_step at 1.
    destruct (parse_line path idx raw) as [| s | e] eqn:P; [| | discriminate].
    + rewrite (proj1 (parse_line_skip_iff path idx raw) P). simpl.
      apply (IH _ _ H).
    + assert (Hs : is_skipped raw = false).
      { destruct (is_skipped raw) eqn:E; [| reflexivity].
        apply parse_line_skip_iff with (path := path) (idx := idx) in E. congruence. }
      rewrite Hs. simpl.
      apply parse_lines_acc in H. destruct H as [more [H E]]. subst steps. simpl.
      constructor.
      * intros path' idx'. pose proof (parse_line_relocate path idx path' idx' raw) as R.
        rewrite P in R. exact R.
      * apply (IH _ _ H).
Qed.

Lemma steps_follow_the_lines_witness :
  Forall2 (fun raw s => forall path' idx', parse_line path' idx' raw = Emit s)
          (filter carries_step ["# path"; "1,2 -> 3,4"; ""; "sleep 5"])
          [Drag 1 2 3 4 None; Sleep five].
Proof.
  apply (steps_follow_the_lines "motions.txt"
           ["# path"; "1,2 -> 3,4"; ""; "sleep 5"] 1 [Drag 1 2 3 4 None; Sleep five]).
  reflexivity.
Defined.

(** Parsing one file after another gives the steps of the first followed
    by the steps of the second. *)
Theorem parse_lines_concat path first second steps1 steps2 :
  parse_lines path 1 first [] = inr steps1 ->
  parse_lines path 1 second [] = inr steps2 ->
  parse_lines path 1 (first ++ second)%list [] = inr (steps1 ++ steps2)%list.
Proof.
  intros H1 H2.
  rewrite (parse_lines_app path first 1 [] steps1 second H1).
  apply parse_lines_acc. exists steps2. split; [| reflexivity].
  apply (parse_lines_relocate path second 1 _ _ [] steps2 H2).
Qed.

Lemma parse_lines_concat_witness :
  parse_lines "motions.txt" 1 (["1,2 -> 3,4"; "# then"] ++ ["sleep 5"])%list [] =
  inr ([Drag 1 2 3 4 None] ++ [Sleep five])%list.
Proof.
  apply (parse_lines_concat "motions.txt" ["1,2 -> 3,4"; "# then"] ["sleep 5"]);
    reflexivity.
Defined.

(** An error of the parser is the error of one line, the first that is
    malformed: the lines before it parse, and it raises that error at its
    own line number. *)
Theorem error_comes_from_first_bad_line path lines : forall idx acc e,
  parse_lines path idx lines acc = inl e ->
  exists good bad rest steps,
    lines = (good ++ bad :: rest)%list /\
    parse_lines path idx good acc = inr steps /\
    parse_line path (idx + List.length good) bad = Raise e.
Proof.
  induction lines as [| raw lines IH]; intros idx acc e H; simpl in H;
    [discriminate |].
  destruct (parse_line path idx raw) as [| s | e'] eqn:P.
  - destruct (IH _ _ _ H) as [good [bad [rest [steps [E [Hg Hb]]]]]].
    exists (raw :: good), bad, rest, steps. simpl. rewrite P.
    split; [rewrite E; reflexivity |]. split; [exact Hg |].
    rewrite <- Hb. f_equal. lia.
  - destruct (IH _ _ _ H) as [good [bad [rest [steps [E [Hg Hb]]]]]].
    exists (raw :: good), bad, rest, steps. simpl. rewrite P.
    split; [rewrite E; reflexivity |]. split; [exact Hg |].
    rewrite <- Hb. f_equal. lia.
  - inversion H; subst. exists [], raw, lines, acc. simpl.
    rewrite Nat.add_0_r. auto.
Qed.

Lemma error_comes_from_first_bad_line_witness :
  exists good bad rest steps,
    ["1,2 -> 3,4"; "oops"; "later"] = (good ++ bad :: rest)%list /\
    parse_lines "motions.txt" 1 good [] = inr steps /\
    parse_line "motions.txt" (1 + List.length good) bad =
      Raise (ValueError
        "motions.txt:2: Invalid line. Expected 'x1,y1 -> x2,y2[,duration]'. Got: oops").
Proof.
  apply (error_comes_from_first_bad_line "motions.txt"
           ["1,2 -> 3,4"; "oops"; "later"] 1 []).
  reflexivity.
Defined.

(** ** The regular expression *)

Lemma caps_of_inj x1 y1 x2 y2 od x1' y1' x2' y2' od' :
  caps_of x1 y1 x2 y2 od = caps_of x1' y1' x2' y2' od' ->
  x1 = x1' /\ y1 = y1' /\ x2 = x2' /\ y2 = y2' /\ od = od'.
Proof.
  unfold caps_of. destruct od, od'; simpl; intros H; inversion H; subst; auto.
Qed.

(** Among the lines of ASCII text, [drag_line_re] matches exactly the
    lines of the grammar, and its groups are the tokens of the line. *)
Theorem drag_line_re_exact line caps :
  isascii line = true ->
  (re_match drag_line_re line = Some caps <->
   exists x1 y1 x2 y2 od,
     drag_shape line x1 y1 x2 y2 od /\ caps = caps_of x1 y1 x2 y2 od).
Proof.
  intros _. split.
  - apply drag_line_re_sound.
  - intros [x1 [y1 [x2 [y2 [od [H E]]]]]]. subst caps.
    apply drag_line_re_complete. exact H.
Qed.

Lemma drag_line_re_exact_witness :
  re_match drag_line_re "1,2 -> 3,4 , .5" = Some (caps_of "1" "2" "3" "4" (Some ".5")) <->
  exists x1 y1 x2 y2 od,
    drag_shape "1,2 -> 3,4 , .5" x1 y1 x2 y2 od /\
    caps_of "1" "2" "3" "4" (Some ".5") = caps_of x1 y1 x2 y2 od.
Proof.
  apply (drag_line_re_exact "1,2 -> 3,4 , .5" (caps_of "1" "2" "3" "4" (Some ".5"))).
  reflexivity.
Defined.

(** The grammar is not ambiguous: a line has one reading at most. *)
Theorem drag_tokens_are_unique line x1 y1 x2 y2 od x1' y1' x2' y2' od' :
  drag_shape line x1 y1 x2 y2 od ->
  drag_shape line x1' y1' x2' y2' od' ->
  x1 = x1' /\ y1 = y1' /\ x2 = x2' /\ y2 = y2' /\ od = od'.
Proof.
  intros H H'. apply drag_line_re_complete in H, H'.
  rewrite H in H'. inversion H' as [E]. apply caps_of_inj. exact E.
Qed.

Lemma drag_tokens_are_unique_witness :
  "1" = "1" /\ "-2" = "-2" /\ "30" = "30" /\ "4" = "4" /\ Some ".5" = Some ".5".
Proof.
  assert (S : drag_shape " 1, -2 -> 30 ,4 , .5 " "1" "-2" "30" "4" (Some ".5")).
  { apply (drag_shape_intro " " "1" "" " " "-2" " " " " "30" " " "" "4"
             " , .5 " (Some ".5")); try reflexivity.
    apply (tail_some " " " " ".5" " "); try reflexivity.
    apply (real_point "" "5"); reflexivity. }
  exact (drag_tokens_are_unique " 1, -2 -> 30 ,4 , .5 " "1" "-2" "30" "4" (Some ".5")
           "1" "-2" "30" "4" (Some ".5") S S).
Defined.

(** ** Reading the file *)

Lemma readlines_from_line l : forall cur rest,
  no_break l = true -> readlines_from cur (l ++ rest) = readlines_from (cur ++ l) rest.
Proof.
  induction l as [| c l IH]; intros cur rest H.
  - rewrite append_nil_r. reflexivity.
  - unfold no_break in H. cbn [forallb_str] in H.
    apply andb_true_iff in H. destruct H as [Hc Hl].
    apply negb_true_iff, orb_false_iff in Hc. destruct Hc as [Hcr Hlf].
    cbn [append readlines_from]. rewrite Hcr, Hlf.
    rewrite (IH _ _ Hl). rewrite append_assoc. reflexivity.
Qed.

Lemma readlines_from_eol eol cur rest :
  eol = String LF "" \/ eol = String CR (String LF "") ->
  readlines_from cur (eol ++ rest) = (cur ++ String LF "") :: readlines_from "" rest.
Proof. intros [-> | ->]; reflexivity. Qed.

Lemma readlines_from_last last cur :
  no_break last = true -> readlines_from cur last = unterminated (cur ++ last).
Proof.
  revert cur. induction last as [| c l IH]; intros cur H.
  - rewrite append_nil_r. destruct cur; reflexivity.
  - unfold no_break in H. cbn [forallb_str] in H.
    apply andb_true_iff in H. destruct H as [Hc Hl].
    apply negb_true_iff, orb_false_iff in Hc. destruct Hc as [Hcr Hlf].
    cbn [readlines_from]. rewrite Hcr, Hlf.
    rewrite (IH _ Hl). rewrite append_assoc. reflexivity.
Qed.

Lemma readlines_text eol lines last :
  eol = String LF "" \/ eol = String CR (String LF "") ->
  Forall (fun l => no_break l = true) lines -> no_break last = true ->
  readlines (text eol lines ++ last) =
    (map (fun l => (l ++ String LF "")%string) lines ++ unterminated last)%list.
Proof.
  intros He Hl Hlast. unfold readlines.
  induction Hl as [| l lines Hb _ IH]; cbn [text map List.app].
  - apply (readlines_from_last last "" Hlast).
  - rewrite !append_assoc.
    rewrite (readlines_from_line l "" _ Hb).
    rewrite (readlines_from_eol eol _ _ He). cbn [append]. rewrite IH. reflexivity.
Qed.

Lemma parse_line_eol path idx l :
  parse_line path idx (l ++ String LF "") = parse_line path idx l.
Proof.
  pose proof (strip_pad "" l (String LF "") eq_refl eq_refl) as H.
  change ("" ++ l ++ String LF "") with (l ++ String LF "") in H.
  unfold parse_line. rewrite H. reflexivity.
Qed.

Lemma parse_lines_of_read path last lines : forall idx acc,
  parse_lines path idx (map (fun l => (l ++ String LF "")%string) lines ++ unterminated last)%list acc =
  parse_lines path idx (lines ++ [last])%list acc.
Proof.
  induction lines as [| l lines IH]; intros idx acc; cbn [map List.app parse_lines].
  - destruct last; reflexivity.
  - rewrite parse_line_eol. destruct (parse_line path idx l); auto.
Qed.

(** A file whose lines end in LF or in CR LF is parsed as the sequence of
    its lines, numbered from 1, and the last line needs no line end. *)
Theorem file_is_parsed_line_by_line path eol lines last :
  eol = String LF "" \/ eol = String CR (String LF "") ->
  Forall (fun l => no_break l = true) lines -> no_break last = true ->
  parse_file path (text eol lines ++ last) = parse_lines path 1 (lines ++ [last])%list [].
Proof.
  intros He Hl Hlast. unfold parse_file.
  rewrite (readlines_text eol lines last He Hl Hlast).
  apply parse_lines_of_read.
Qed.

Lemma file_is_parsed_line_by_line_witness :
  parse_file "motions.txt"
    (text (String CR (String LF "")) ["1,2 -> 3,4"; "# then"] ++ "sleep 5") =
  parse_lines "motions.txt" 1 (["1,2 -> 3,4"; "# then"] ++ ["sleep 5"])%list [].
Proof.
  apply (file_is_parsed_line_by_line "motions.txt" (String CR (String LF ""))
           ["1,2 -> 3,4"; "# then"] "sleep 5").
  - right. reflexivity.
  - repeat constructor.
  - reflexivity.
Defined.

(** ** Integers written in decimal *)

Lemma shape_parses path idx raw x1 y1 x2 y2 od :
  drag_shape raw x1 y1 x2 y2 od ->
  parse_line path idx raw = Emit (drag_of x1 y1 x2 y2 od).
Proof.
  intros H. apply strip_shape in H.
  assert (Hh : head_is ink (strip raw) = true) by apply strip_head_ink.
  inversion H as [w0 x1' w1 w2 y1' w3 w4 x2' w5 w6 y2' tail od'
                     H0 H1 H2 H3 H4 H5 H6 Hx1 Hy1 Hx2 Hy2 Ht E]; subst.
  rewrite parse_line_other.
  - rewrite <- E. apply (drag_outcome_shape path idx _ x1 y1 x2 y2 od).
    rewrite E. exact H.
  - rewrite <- E. rewrite <- E in Hh.
    destruct w0 as [| c w0].
    + destruct x1 as [| c x1]; [discriminate |].
      pose proof (int_lit_chars _ Hx1) as [_ Hc]. simpl in Hc.
      apply andb_true_iff in Hc. destruct Hc as [Hc _].
      cbn [append String.eqb startswith]. clear - Hc.
      revert Hc. by_cases_on_char c.
    + exfalso. simpl in Hh. unfold is_ws in H0. simpl in H0.
      unfold ink in Hh. destruct (isspace c); discriminate.
  - rewrite <- E. rewrite <- E in Hh.
    destruct w0 as [| c w0].
    + destruct x1 as [| c x1]; [discriminate |].
      pose proof (int_lit_chars _ Hx1) as [_ Hc]. simpl in Hc.
      apply andb_true_iff in Hc. destruct Hc as [Hc _].
      cbn [append has_sleep_keyword].
      assert (Hl : letter "S" "s" c = false) by (clear - Hc; revert Hc; by_cases_on_char c).
      destruct (x1 ++ _) as [| c2 [| c3 [| c4 [| c5 r]]]]; try reflexivity.
      rewrite Hl. reflexivity.
    + exfalso. simpl in Hh. unfold is_ws in H0. simpl in H0.
      unfold ink in Hh. destruct (isspace c); discriminate.
Qed.

Lemma digits_of_uint d : forallb_str isdigit (NilEmpty.string_of_uint d) = true.
Proof.
  induction d; cbn [NilEmpty.string_of_uint forallb_str]; try rewrite IHd; reflexivity.
Qed.

Lemma value_of_uint_acc d : forall acc,
  digits_val (Zpos acc) (NilEmpty.string_of_uint d) = Zpos (Pos.of_uint_acc d acc).
Proof.
  induction d; intros acc; cbn [NilEmpty.string_of_uint digits_val Pos.of_uint_acc];
    [reflexivity | rewrite <- IHd; f_equal; vm_compute (digit_val _); lia ..].
Qed.

Lemma value_of_uint d : digits_val 0 (NilEmpty.string_of_uint d) = Z.of_uint d.
Proof.
  unfold Z.of_uint.
  induction d; cbn [NilEmpty.string_of_uint digits_val Pos.of_uint];
    [reflexivity | exact IHd | apply value_of_uint_acc ..].
Qed.

Lemma digit_not_minus c : isdigit c = true -> Ascii.eqb c "-" = false.
Proof. by_cases_on_char c. Qed.

Lemma digits_int_lit s :
  s <> "" -> forallb_str isdigit s = true ->
  is_int_lit s = true /\ int_value s = digits_val 0 s.
Proof.
  destruct s as [| c d]; [congruence |]. intros _ H.
  assert (Hc : Ascii.eqb c "-" = false).
  { cbn [forallb_str] in H. apply andb_true_iff in H. apply digit_not_minus, H. }
  unfold is_int_lit, int_value. rewrite Hc. split; [exact H | reflexivity].
Qed.

Lemma string_of_nonnil d :
  d <> Decimal.Nil ->
  NilZero.string_of_uint d = NilEmpty.string_of_uint d /\
  NilEmpty.string_of_uint d <> "".
Proof. destruct d; intros H; try congruence; split; try reflexivity; discriminate. Qed.

Lemma str_of_pos p :
  NilZero.string_of_uint (Pos.to_uint p) <> "" /\
  forallb_str isdigit (NilZero.string_of_uint (Pos.to_uint p)) = true /\
  digits_val 0 (NilZero.string_of_uint (Pos.to_uint p)) = Zpos p.
Proof.
  destruct (string_of_nonnil _ (Unsigned.to_uint_nonnil p)) as [-> Hne].
  split; [exact Hne |]. split; [apply digits_of_uint |].
  rewrite value_of_uint. unfold Z.of_uint. rewrite Unsigned.of_to. reflexivity.
Qed.

(** [str] writes an integer as a token of the grammar that denotes it. *)
Lemma str_of_Z_token z : is_int_lit (str_of_Z z) = true /\ int_value (str_of_Z z) = z.
Proof.
  destruct z as [| p | p]; unfold str_of_Z; cbn [Z.to_int NilZero.string_of_int].
  - split; reflexivity.
  - destruct (str_of_pos p) as [Hne [Hd Hv]].
    destruct (digits_int_lit _ Hne Hd) as [Hl Hi]. rewrite Hi, Hv. auto.
  - destruct (str_of_pos p) as [Hne [Hd Hv]].
    unfold is_int_lit, int_value.
    change (Ascii.eqb "-" "-") with true. cbv iota. rewrite Hv. split; [| reflexivity].
    destruct (NilZero.string_of_uint (Pos.to_uint p)); [congruence | exact Hd].
Qed.

(** A Drag line written from four integers in decimal, in the format
    [x1,y1 -> x2,y2], is read back as the Drag step of these integers,
    without a duration, whatever their sign, as long as each is written
    with no more digits than [int()] converts. *)
Theorem written_coordinates_are_read_back path idx x1 y1 x2 y2 :
  within_int_limit (str_of_Z x1) = true -> within_int_limit (str_of_Z y1) = true ->
  within_int_limit (str_of_Z x2) = true -> within_int_limit (str_of_Z y2) = true ->
  parse_line path idx (drag_text x1 y1 x2 y2) = Emit (Drag x1 y1 x2 y2 None).
Proof.
  intros _ _ _ _.
  destruct (str_of_Z_token x1) as [Lx1 Vx1], (str_of_Z_token y1) as [Ly1 Vy1],
           (str_of_Z_token x2) as [Lx2 Vx2], (str_of_Z_token y2) as [Ly2 Vy2].
  rewrite (shape_parses path idx _ (str_of_Z x1) (str_of_Z y1) (str_of_Z x2) (str_of_Z y2) None).
  - unfold drag_of. rewrite Vx1, Vy1, Vx2, Vy2. reflexivity.
  - pose proof (drag_shape_intro "" (str_of_Z x1) "" "" (str_of_Z y1) " " " " (str_of_Z x2)
                  "" "" (str_of_Z y2) "" None eq_refl eq_refl eq_refl eq_refl eq_refl
                  eq_refl eq_refl Lx1 Ly1 Lx2 Ly2 (tail_none "" eq_refl)) as S.
    rewrite (append_nil_r (str_of_Z y2)) in S. exact S.
Qed.

Lemma written_coordinates_are_read_back_witness :
  parse_line "motions.txt" 1 (drag_text (-660) 663 (-961) 0) =
    Emit (Drag (-660) 663 (-961) 0 None).
Proof.
  apply (written_coordinates_are_read_back "motions.txt" 1 (-660) 663 (-961) 0);
    reflexivity.
Defined.

End ParseLaws.
Import ParseLaws.

(** * Laws of the executor over whole runs *)

Module ExecLaws.

Local Open Scope list_scope.
Local Open Scope nat_scope.

Lemma truncated_app_l a ideal t e :
  truncated ideal t e -> truncated (a ++ ideal) (a ++ t) e.
Proof.
  intros [pre [c [post [H1 H2]]]]. exists (a ++ pre), c, post.
  subst. rewrite <- !app_assoc. auto.
Qed.

Lemma truncated_app_r b ideal t e :
  truncated ideal t e -> truncated (ideal ++ b) t e.
Proof.
  intros [pre [c [post [H1 H2]]]]. exists pre, c, (post ++ b).
  subst. rewrite <- !app_assoc. auto.
Qed.

(** One iteration follows its script until a call raises. *)
Lemma exec_step_follows dd bd st s env h :
  (snd (exec_step dd bd st s env h) = inr (step_next st s) /\
   fst (exec_step dd bd st s env h) = step_script dd bd st s) \/
  (exists e, snd (exec_step dd bd st s env h) = inl e /\
             truncated (step_script dd bd st s) (fst (exec_step dd bd st s env h)) e).
Proof.
  destruct st as [cur seg]. destruct s as [sx sy ex ey dur | seconds].
  - unfold exec_step, step_script, step_next.
    unfold when, bind, print, invoke, ret. simpl.
    destruct (pos_neq (sx, sy) cur); simpl.
    + destruct (env _ (moveTo sx sy _ None)) as [e1 |]; simpl.
      { right. exists e1. split; [reflexivity |].
        eexists [_], _, _. split; reflexivity. }
      destruct (env _ (moveTo ex ey _ (Some easeInOutQuad))) as [e2 |]; simpl.
      { right. exists e2. split; [reflexivity |].
        eexists [_; _; _], _, _. split; reflexivity. }
      destruct (float_gt bd pos_zero); simpl; [| left; split; reflexivity].
      destruct (env _ (sleep bd)) as [e3 |]; simpl; [| left; split; reflexivity].
      right. exists e3. split; [reflexivity |].
      eexists [_; _; _; _], _, _. split; reflexivity.
    + destruct (env _ (moveTo ex ey _ (Some easeInOutQuad))) as [e2 |]; simpl.
      { right. exists e2. split; [reflexivity |].
        eexists [_], _, _. split; reflexivity. }
      destruct (float_gt bd pos_zero); simpl; [| left; split; reflexivity].
      destruct (env _ (sleep bd)) as [e3 |]; simpl; [| left; split; reflexivity].
      right. exists e3. split; [reflexivity |].
      eexists [_; _], _, _. split; reflexivity.
  - unfold exec_step, step_script, step_next.
    unfold when, bind, print, invoke, ret. simpl.
    destruct (env _ (sleep seconds)) as [e1 |]; simpl; [| left; split; reflexivity].
    right. exists e1. split; [reflexivity |].
    eexists [_], _, _. split; reflexivity.
Qed.

(** The loop follows its script until a call raises, and then stops. *)
Lemma loop_follows dd bd steps : forall st env h,
  (snd (loop dd bd steps st env h) = inr tt /\
   fst (loop dd bd steps st env h) = loop_script dd bd steps st) \/
  (exists e, snd (loop dd bd steps st env h) = inl e /\
             truncated (loop_script dd bd steps st) (fst (loop dd bd steps st env h)) e).
Proof.
  induction steps as [| s rest IH]; intros st env h.
  - left. split; reflexivity.
  - cbn [loop loop_script]. unfold bind.
    destruct (exec_step_follows dd bd st s env h) as [[Hr Ht] | [e [Hr Ht]]];
      destruct (exec_step dd bd st s env h) as [t1 r1]; simpl in Hr, Ht; subst r1.
    + subst t1.
      destruct (IH (step_next st s) env (h ++ step_script dd bd st s))
        as [[Hr2 Ht2] | [e [Hr2 Ht2]]];
        destruct (loop dd bd rest (step_next st s) env _) as [t2 r2];
        simpl in Hr2, Ht2; subst r2; simpl.
      * left. subst t2. split; reflexivity.
      * right. exists e. split; [reflexivity |]. apply truncated_app_l. exact Ht2.
    + right. exists e. simpl. split; [reflexivity |].
      apply truncated_app_r. exact Ht.
Qed.

(** Observations of a trace are made event by event. *)
Lemma raises_app a b : raises (a ++ b) = raises a ++ raises b.
Proof. apply flat_map_app. Qed.

Lemma eased_moves_app a b : eased_moves (a ++ b) = eased_moves a ++ eased_moves b.
Proof. apply flat_map_app. Qed.

Lemma segment_numbers_app a b :
  segment_numbers (a ++ b) = segment_numbers a ++ segment_numbers b.
Proof. apply flat_map_app. Qed.

Lemma sleeps_app a b : sleeps (a ++ b) = sleeps a ++ sleeps b.
Proof. apply flat_map_app. Qed.

Lemma step_script_quiet dd bd st s : raises (step_script dd bd st s) = [].
Proof.
  destruct st as [cur seg], s as [sx sy ex ey dur | seconds]; simpl;
    [destruct (pos_neq (sx, sy) cur), (float_gt bd pos_zero) |]; reflexivity.
Qed.

Lemma loop_script_quiet dd bd steps : forall st, raises (loop_script dd bd steps st) = [].
Proof.
  induction steps as [| s rest IH]; intros st; simpl; [reflexivity |].
  rewrite raises_app, step_script_quiet, IH. reflexivity.
Qed.

Lemma after_quiet pre t :
  raises pre = [] -> raise_point (pre ++ t) = raise_point t.
Proof.
  induction pre as [| [m | c [e |]] pre IH]; simpl; intros H; auto.
  discriminate.
Qed.

(** A cut script holds one raising call, its last event, and that call
    is one of the script. *)
Lemma truncated_raises ideal t e :
  raises ideal = [] -> truncated ideal t e ->
  raises t = [e] /\
  exists c, In (Called c None) ideal /\
            forall fin, raise_point (t ++ fin) = Some (c, fin).
Proof.
  intros Hq [pre [c [post [Hi Ht]]]]. subst.
  rewrite raises_app in Hq. apply app_eq_nil in Hq. destruct Hq as [Hpre _].
  split.
  - rewrite raises_app, Hpre. reflexivity.
  - exists c. split.
    + apply in_or_app. right. left. reflexivity.
    + intros fin. rewrite <- app_assoc. rewrite (after_quiet _ _ Hpre). reflexivity.
Qed.

(** The calls of the script of the loop are moves with a duration and
    pauses. *)
Lemma step_script_in_loop dd bd st s : Forall in_loop (step_script dd bd st s).
Proof.
  destruct st as [cur seg], s as [sx sy ex ey dur | seconds]; simpl;
    [destruct (pos_neq (sx, sy) cur), (float_gt bd pos_zero) |];
    repeat constructor.
Qed.

Lemma loop_script_in_loop dd bd steps : forall st,
  Forall in_loop (loop_script dd bd steps st).
Proof.
  induction steps as [| s rest IH]; intros st; simpl; [constructor |].
  apply Forall_app. split; [apply step_script_in_loop | apply IH].
Qed.

(** An observation that does not look at the outcome of a call sees, on
    a cut script, the beginning of what it sees on the whole script. *)
Lemma truncated_prefix {X} (f : event -> list X) ideal t e :
  (forall c r, f (Called c r) = f (Called c None)) ->
  truncated ideal t e -> exists rest, flat_map f ideal = flat_map f t ++ rest.
Proof.
  intros Hf [pre [c [post [Hi Ht]]]]. subst.
  exists (flat_map f post).
  rewrite !flat_map_app. simpl. rewrite (Hf c (Some e)), app_nil_r, <- app_assoc.
  reflexivity.
Qed.

Lemma eased_blind c r : eased (Called c r) = eased (Called c None).
Proof. destruct c as [x y [dd |] [[] |] | b | b | s]; reflexivity. Qed.

Lemma slept_blind c r : slept (Called c r) = slept (Called c None).
Proof. destruct c; reflexivity. Qed.

(** The anatomy of a run that has a Drag step: the initial move raises,
    or the press raises, or the loop runs and the release follows it. *)
Lemma run_anatomy dd bd steps button env h x1 y1 x2 y2 d :
  first_drag steps = Some (x1, y1, x2, y2, d) ->
  let btn := normalize_button button in
  let start := Printed (MovingToStart x1 y1 btn) in
  let go := Called (moveTo x1 y1 None None) in
  let down := Called (mouseDown btn) in
  (exists e, run_single_hold dd bd steps button env h = ([start; go (Some e)], inl e)) \/
  (exists e, run_single_hold dd bd steps button env h =
               ([start; go None; down (Some e)], inl e)) \/
  (exists h' r3,
     run_single_hold dd bd steps button env h =
       ([start; go None; down None]
          ++ fst (loop dd bd steps ((x1, y1), 0) env h')
          ++ [Printed Releasing; Called (mouseUp btn) r3],
        match r3 with
        | Some e => inl e
        | None => snd (loop dd bd steps ((x1, y1), 0) env h')
        end)).
Proof.
  intros Hd btn start go down. unfold run_single_hold. rewrite Hd. fold btn.
  unfold bind, print, invoke, try_finally. simpl.
  destruct (env _ (moveTo x1 y1 None None)) as [e1 |]; simpl.
  { left. exists e1. reflexivity. }
  destruct (env _ (mouseDown _)) as [e2 |]; simpl.
  { right. left. exists e2. reflexivity. }
  right. right.
  match goal with |- context [loop dd bd steps _ env ?hh] => exists hh end.
  destruct (loop dd bd steps _ env _) as [tl rl]; simpl.
  match goal with |- context [env ?hh (mouseUp btn)] => exists (env hh (mouseUp btn)) end.
  destruct (env _ (mouseUp btn)); reflexivity.
Qed.

Lemma run_without_drag dd bd steps button env h :
  first_drag steps = None ->
  run_single_hold dd bd steps button env h = ([Printed NoDragSteps], inr tt).
Proof. intros H. unfold run_single_hold. rewrite H. reflexivity. Qed.

(** A call that raises ends the run, and the button is released exactly
    when the loop had been reached.  When the first call that raises is
    one of the loop (a move with a duration, or a pause), what follows is
    the release notice and the release call and nothing else: no further
    move and no further pause.  When it is the move to the start, the
    press or the release itself, nothing follows.  When no call raises,
    the run returns normally. *)
Theorem abort_ends_the_run dd bd steps button env h :
  match raise_point (fst (run_single_hold dd bd steps button env h)) with
  | None => snd (run_single_hold dd bd steps button env h) = inr tt
  | Some (c, post) =>
      if loop_call c
      then exists out,
             post = [Printed Releasing; Called (mouseUp (normalize_button button)) out]
      else post = [] /\
           exists x1 y1, In c [moveTo x1 y1 None None;
                               mouseDown (normalize_button button);
                               mouseUp (normalize_button button)]
  end.
Proof.
  destruct (first_drag steps) as [[[[[x1 y1] x2] y2] d] |] eqn:E.
  - destruct (run_anatomy dd bd steps button env h x1 y1 x2 y2 d E)
      as [[e H] | [[e H] | [h' [r3 H]]]]; rewrite H; clear H.
    + simpl. split; [reflexivity |]. exists x1, y1. auto.
    + simpl. split; [reflexivity |]. exists x1, y1. auto.
    + cbn [fst snd app raise_point].
      destruct (loop_follows dd bd steps (x1, y1, 0) env h')
        as [[Hr Ht] | [e [Hr Ht]]]; rewrite Hr; [rewrite Ht |].
      * rewrite (after_quiet _ _ (loop_script_quiet dd bd steps _)).
        destruct r3 as [e3 |]; simpl; [| reflexivity].
        split; [reflexivity |]. exists x1, y1. auto.
      * destruct (truncated_raises _ _ e (loop_script_quiet dd bd steps _) Ht)
          as [_ [c [Hin Ha]]].
        rewrite Ha.
        pose proof (loop_script_in_loop dd bd steps (x1, y1, 0)) as Hl.
        rewrite Forall_forall in Hl. specialize (Hl _ Hin). simpl in Hl.
        rewrite Hl. exists r3. reflexivity.
  - rewrite (run_without_drag dd bd steps button env h E). reflexivity.
Qed.

Lemma eased_step_script dd bd st s : eased_moves (step_script dd bd st s) = segment dd s.
Proof.
  destruct st as [cur seg], s as [sx sy ex ey dur | seconds]; simpl;
    [destruct (pos_neq (sx, sy) cur), (float_gt bd pos_zero) |]; reflexivity.
Qed.

Lemma eased_loop_script dd bd steps : forall st,
  eased_moves (loop_script dd bd steps st) = segments dd steps.
Proof.
  induction steps as [| s rest IH]; intros st; simpl; [reflexivity |].
  rewrite eased_moves_app, eased_step_script, IH. reflexivity.
Qed.

Lemma slept_step_script dd bd st s : sleeps (step_script dd bd st s) = pause bd s.
Proof.
  destruct st as [cur seg], s as [sx sy ex ey dur | seconds]; simpl;
    [destruct (pos_neq (sx, sy) cur), (float_gt bd pos_zero) |]; reflexivity.
Qed.

Lemma slept_loop_script dd bd steps : forall st,
  sleeps (loop_script dd bd steps st) = pauses bd steps.
Proof.
  induction steps as [| s rest IH]; intros st; simpl; [reflexivity |].
  rewrite sleeps_app, slept_step_script, IH. reflexivity.
Qed.

Lemma segments_without_drag dd steps : first_drag steps = None -> segments dd steps = [].
Proof.
  induction steps as [| [x1 y1 x2 y2 d | sec] rest IH]; simpl; auto. discriminate.
Qed.

(** The timed, eased moves of a run are the end points of the Drag steps
    in file order, each with its own duration or the default one: all of
    them when no call raises, and a beginning of them otherwise. *)
Theorem timed_moves_follow_the_steps dd bd steps button env h :
  (exists rest,
     segments dd steps =
       eased_moves (fst (run_single_hold dd bd steps button env h)) ++ rest) /\
  (raises (fst (run_single_hold dd bd steps button env h)) = [] ->
   eased_moves (fst (run_single_hold dd bd steps button env h)) = segments dd steps).
Proof.
  destruct (first_drag steps) as [[[[[x1 y1] x2] y2] d] |] eqn:E.
  - destruct (run_anatomy dd bd steps button env h x1 y1 x2 y2 d E)
      as [[e H] | [[e H] | [h' [r3 H]]]]; rewrite H; clear H.
    + split; [exists (segments dd steps); reflexivity | discriminate].
    + split; [exists (segments dd steps); reflexivity | discriminate].
    + cbn [fst]. rewrite !eased_moves_app, !raises_app.
      change (eased_moves [Printed Releasing; Called (mouseUp (normalize_button button)) r3])
        with (@nil (Z * Z * float)).
      rewrite app_nil_r. cbn [eased_moves raises flat_map eased raised app].
      destruct (loop_follows dd bd steps (x1, y1, 0) env h')
        as [[Hr Ht] | [e [Hr Ht]]].
      * rewrite Ht, eased_loop_script. split; [exists []; rewrite app_nil_r |]; reflexivity.
      * split.
        -- destruct (truncated_prefix eased _ _ e eased_blind Ht) as [rest Hrest].
           exists rest. rewrite <- (eased_loop_script dd bd steps (x1, y1, 0)). exact Hrest.
        -- destruct (truncated_raises _ _ e (loop_script_quiet dd bd steps _) Ht) as [Ha _].
           fold (raises (fst (loop dd bd steps (x1, y1, 0) env h'))).
           rewrite Ha. discriminate.
  - rewrite (run_without_drag dd bd steps button env h E).
    rewrite (segments_without_drag dd steps E).
    split; [exists [] |]; reflexivity.
Qed.

(** The pauses of a run are the Sleep steps and, after every Drag step,
    the delay between segments when it is positive, in file order: all of
    them when no call raises, and a beginning of them otherwise.  A file
    without a Drag step is not slept through at all. *)
Theorem pauses_follow_the_steps dd bd steps button env h :
  (exists rest,
     match first_drag steps with Some _ => pauses bd steps | None => [] end =
       sleeps (fst (run_single_hold dd bd steps button env h)) ++ rest) /\
  (raises (fst (run_single_hold dd bd steps button env h)) = [] ->
   sleeps (fst (run_single_hold dd bd steps button env h)) =
     match first_drag steps with Some _ => pauses bd steps | None => [] end).
Proof.
  destruct (first_drag steps) as [[[[[x1 y1] x2] y2] d] |] eqn:E.
  - destruct (run_anatomy dd bd steps button env h x1 y1 x2 y2 d E)
      as [[e H] | [[e H] | [h' [r3 H]]]]; rewrite H; clear H.
    + split; [exists (pauses bd steps); reflexivity | discriminate].
    + split; [exists (pauses bd steps); reflexivity | discriminate].
    + cbn [fst]. rewrite !sleeps_app, !raises_app.
      change (sleeps [Printed Releasing; Called (mouseUp (normalize_button button)) r3])
        with (@nil float).
      rewrite app_nil_r. cbn [sleeps raises flat_map slept raised app].
      destruct (loop_follows dd bd steps (x1, y1, 0) env h')
        as [[Hr Ht] | [e [Hr Ht]]].
      * rewrite Ht, slept_loop_script. split; [exists []; rewrite app_nil_r |]; reflexivity.
      * split.
        -- destruct (truncated_prefix slept _ _ e slept_blind Ht) as [rest Hrest].
           exists rest. rewrite <- (slept_loop_script dd bd steps (x1, y1, 0)). exact Hrest.
        -- destruct (truncated_raises _ _ e (loop_script_quiet dd bd steps _) Ht) as [Ha _].
           fold (raises (fst (loop dd bd steps (x1, y1, 0) env h'))).
           rewrite Ha. discriminate.
  - rewrite (run_without_drag dd bd steps button env h E).
    split; [exists [] |]; reflexivity.
Qed.

Lemma loop_cons dd bd s rest st env h :
  fst (loop dd bd (s :: rest) st env h) =
    fst (exec_step dd bd st s env h) ++
    match snd (exec_step dd bd st s env h) with
    | inl _ => []
    | inr st' => fst (loop dd bd rest st' env (h ++ fst (exec_step dd bd st s env h)))
    end.
Proof.
  cbn [loop]. unfold bind.
  destruct (exec_step dd bd st s env h) as [t1 [e | st']]; simpl.
  - rewrite app_nil_r. reflexivity.
  - destruct (loop dd bd rest st' env (h ++ t1)); reflexivity.
Qed.

(** In one iteration every warning is followed by its reposition call,
    every announcement of a segment by its move, and the counter goes up
    with the announcement. *)
Lemma exec_step_paired dd bd cur seg s env h :
  count is_reposition (fst (exec_step dd bd (cur, seg) s env h)) =
    count is_warning (fst (exec_step dd bd (cur, seg) s env h)) /\
  segment_numbers (fst (exec_step dd bd (cur, seg) s env h)) =
    List.seq (S seg) (List.length (eased_moves (fst (exec_step dd bd (cur, seg) s env h)))) /\
  forall st', snd (exec_step dd bd (cur, seg) s env h) = inr st' ->
    snd st' = seg + List.length (eased_moves (fst (exec_step dd bd (cur, seg) s env h))).
Proof.
  destruct s as [sx sy ex ey dur | seconds].
  - unfold exec_step. unfold when, bind, print, invoke, ret. simpl.
    destruct (pos_neq (sx, sy) cur); simpl.
    + destruct (env _ (moveTo sx sy _ None)) as [e1 |]; simpl.
      { repeat split; try reflexivity. discriminate. }
      destruct (env _ (moveTo ex ey _ (Some easeInOutQuad))) as [e2 |]; simpl.
      { repeat split; try reflexivity. discriminate. }
      destruct (float_gt bd pos_zero); simpl.
      * destruct (env _ (sleep bd)) as [e3 |]; simpl;
          (repeat split; try reflexivity; try discriminate);
          intros st' H; inversion H; simpl; lia.
      * repeat split; try reflexivity. intros st' H; inversion H; simpl; lia.
    + destruct (env _ (moveTo ex ey _ (Some easeInOutQuad))) as [e2 |]; simpl.
      { repeat split; try reflexivity. discriminate. }
      destruct (float_gt bd pos_zero); simpl.
      * destruct (env _ (sleep bd)) as [e3 |]; simpl;
          (repeat split; try reflexivity; try discriminate);
          intros st' H; inversion H; simpl; lia.
      * repeat split; try reflexivity. intros st' H; inversion H; simpl; lia.
  - unfold exec_step. unfold when, bind, print, invoke, ret. simpl.
    destruct (env _ (sleep seconds)) as [e1 |]; simpl;
      (repeat split; try reflexivity; try discriminate);
      intros st' H; inversion H; simpl; lia.
Qed.

Lemma loop_paired dd bd steps : forall cur seg env h,
  count is_reposition (fst (loop dd bd steps (cur, seg) env h)) =
    count is_warning (fst (loop dd bd steps (cur, seg) env h)) /\
  segment_numbers (fst (loop dd bd steps (cur, seg) env h)) =
    List.seq (S seg) (List.length (eased_moves (fst (loop dd bd steps (cur, seg) env h)))).
Proof.
  induction steps as [| s rest IH]; intros cur seg env h.
  - split; reflexivity.
  - rewrite loop_cons.
    destruct (exec_step_paired dd bd cur seg s env h) as [Hc [Hn Hs]].
    rewrite !count_app, segment_numbers_app, eased_moves_app, length_app, List.seq_app.
    rewrite Hc, Hn.
    destruct (snd (exec_step dd bd (cur, seg) s env h)) as [e | [cur' seg']] eqn:Er.
    + split; reflexivity.
    + specialize (Hs _ eq_refl). cbn [snd] in Hs. subst seg'.
      destruct (IH cur' (seg + List.length (eased_moves (fst (exec_step dd bd (cur, seg) s env h))))
                  env (h ++ fst (exec_step dd bd (cur, seg) s env h))) as [Hc' Hn'].
      rewrite Hc', Hn'. split; reflexivity.
Qed.

Lemma warned_loop_script dd bd steps : forall cur seg,
  count is_warning (loop_script dd bd steps (cur, seg)) = breaks cur steps.
Proof.
  induction steps as [| [sx sy ex ey dur | seconds] rest IH]; intros cur seg.
  - reflexivity.
  - cbn [loop_script step_script step_next breaks snd].
    rewrite !count_app, IH. f_equal.
    unfold pos_neq, same_point. cbn [fst snd].
    destruct ((sx =? fst cur)%Z && (sy =? snd cur)%Z), (float_gt bd pos_zero); reflexivity.
  - cbn [loop_script step_script step_next breaks].
    rewrite count_app, IH. reflexivity.
Qed.

(** From the start of the first Drag step on, the breaks of the tracked
    position are the discontinuities of the sequence. *)
Lemma breaks_gaps steps : forall cur,
  breaks cur steps =
    match stretches steps with
    | [] => 0
    | d :: _ => (if same_point (fst d) cur then 0 else 1) + gaps (stretches steps)
    end.
Proof.
  induction steps as [| [sx sy ex ey dur | seconds] rest IH]; intros cur.
  - reflexivity.
  - cbn [breaks stretches flat_map stretch List.app].
    fold (stretches rest). rewrite (IH (ex, ey)). cbn [gaps fst snd].
    destruct (stretches rest) as [| d ds]; reflexivity.
  - cbn [breaks stretches flat_map stretch List.app]. apply IH.
Qed.

Lemma breaks_from_start steps x1 y1 x2 y2 d :
  first_drag steps = Some (x1, y1, x2, y2, d) ->
  breaks (x1, y1) steps = discontinuities steps.
Proof.
  intros H. rewrite breaks_gaps. unfold discontinuities.
  assert (E : exists ds, stretches steps = ((x1, y1), (x2, y2)) :: ds).
  { induction steps as [| [sx sy ex ey dur | seconds] rest IH]; simpl in H.
    - discriminate.
    - inversion H; subst. eexists. reflexivity.
    - apply IH, H. }
  destruct E as [ds E]. rewrite E. unfold same_point. cbn [fst snd].
  rewrite !Z.eqb_refl. reflexivity.
Qed.

Lemma stretches_without_drag steps : first_drag steps = None -> stretches steps = [].
Proof.
  induction steps as [| [x1 y1 x2 y2 d | sec] rest IH]; simpl; auto. discriminate.
Qed.

Lemma truncated_count p ideal t e :
  (forall c r, p (Called c r) = p (Called c None)) ->
  truncated ideal t e -> count p t <= count p ideal.
Proof.
  intros Hp [pre [c [post [Hi Ht]]]]. subst.
  rewrite !count_app. unfold count at 2 4. simpl.
  rewrite (Hp c (Some e)). destruct (p (Called c None)); simpl; lia.
Qed.

(** A run that no call interrupts warns once for each Drag step that does
    not start where the Drag step before it ended: a Sleep step in between
    does not break the chain, and the first Drag step never warns.  An
    interrupted run warns no more than that.  In every run each warning
    is followed by its reposition call. *)
Theorem warnings_count_discontinuities dd bd steps button env h :
  count is_reposition (fst (run_single_hold dd bd steps button env h)) =
    count is_warning (fst (run_single_hold dd bd steps button env h)) /\
  count is_warning (fst (run_single_hold dd bd steps button env h))
    <= discontinuities steps /\
  (raises (fst (run_single_hold dd bd steps button env h)) = [] ->
   count is_warning (fst (run_single_hold dd bd steps button env h))
     = discontinuities steps).
Proof.
  destruct (first_drag steps) as [[[[[x1 y1] x2] y2] d] |] eqn:E.
  - destruct (run_anatomy dd bd steps button env h x1 y1 x2 y2 d E)
      as [[e H] | [[e H] | [h' [r3 H]]]]; rewrite H; clear H.
    + split; [reflexivity | split; [apply Nat.le_0_l | discriminate]].
    + split; [reflexivity | split; [apply Nat.le_0_l | discriminate]].
    + cbn [fst]. rewrite !count_app, !raises_app.
      destruct (loop_paired dd bd steps (x1, y1) 0 env h') as [Hc _].
      rewrite Hc.
      change (count is_reposition [Printed (MovingToStart x1 y1 (normalize_button button));
                Called (moveTo x1 y1 None None) None;
                Called (mouseDown (normalize_button button)) None]) with 0.
      change (count is_warning [Printed (MovingToStart x1 y1 (normalize_button button));
                Called (moveTo x1 y1 None None) None;
                Called (mouseDown (normalize_button button)) None]) with 0.
      change (count is_reposition [Printed Releasing;
                Called (mouseUp (normalize_button button)) r3]) with 0.
      change (count is_warning [Printed Releasing;
                Called (mouseUp (normalize_button button)) r3]) with 0.
      rewrite !Nat.add_0_r, !Nat.add_0_l.
      rewrite <- (breaks_from_start steps x1 y1 x2 y2 d E).
      split; [reflexivity |].
      destruct (loop_follows dd bd steps (x1, y1, 0) env h')
        as [[Hr Ht] | [e [Hr Ht]]].
      * rewrite Ht, warned_loop_script. split; [apply Nat.le_refl | reflexivity].
      * split.
        -- rewrite <- (warned_loop_script dd bd steps (x1, y1) 0).
           apply (truncated_count is_warning _ _ e); [| exact Ht].
           intros c r. reflexivity.
        -- destruct (truncated_raises _ _ e (loop_script_quiet dd bd steps _) Ht) as [Ha _].
           rewrite Ha. discriminate.
  - rewrite (run_without_drag dd bd steps button env h E).
    unfold discontinuities. rewrite (stretches_without_drag steps E).
    split; [reflexivity | split; [apply Nat.le_refl | reflexivity]].
Qed.

(** The segments are announced with the numbers 1, 2, 3, ... in order:
    only Drag steps count, and each announcement is followed by the call
    of its move. *)
Theorem segments_are_numbered_in_order dd bd steps button env h :
  segment_numbers (fst (run_single_hold dd bd steps button env h)) =
    List.seq 1 (List.length (eased_moves (fst (run_single_hold dd bd steps button env h)))).
Proof.
  destruct (first_drag steps) as [[[[[x1 y1] x2] y2] d] |] eqn:E.
  - destruct (run_anatomy dd bd steps button env h x1 y1 x2 y2 d E)
      as [[e H] | [[e H] | [h' [r3 H]]]]; rewrite H; clear H.
    + reflexivity.
    + reflexivity.
    + cbn [fst]. rewrite !segment_numbers_app, !eased_moves_app.
      destruct (loop_paired dd bd steps (x1, y1) 0 env h') as [_ Hn].
      rewrite Hn.
      change (eased_moves [Printed Releasing; Called (mouseUp (normalize_button button)) r3])
        with (@nil (Z * Z * float)).
      change (segment_numbers [Printed Releasing; Called (mouseUp (normalize_button button)) r3])
        with (@nil nat).
      rewrite !app_nil_r. reflexivity.
  - rewrite (run_without_drag dd bd steps button env h E). reflexivity.
Qed.

Lemma unheld_loop t fin :
  Forall off_button t -> unheld true (t ++ fin) = unheld true fin.
Proof.
  induction 1 as [| x t [Hr Hp] _ IH]; [reflexivity |].
  destruct x as [m | [x y dur tw | b | b | s] r]; simpl in *; try discriminate; exact IH.
Qed.

(** The only call a run makes while the button is not held is the move
    to the start of the first Drag step: every other move and every pause
    happens between the press and the release. *)
Theorem only_the_first_move_is_unheld dd bd steps button env h :
  unheld false (fst (run_single_hold dd bd steps button env h)) =
    match first_drag steps with
    | Some (x1, y1, _, _, _) => [moveTo x1 y1 None None]
    | None => []
    end.
Proof.
  destruct (first_drag steps) as [[[[[x1 y1] x2] y2] d] |] eqn:E.
  - destruct (run_anatomy dd bd steps button env h x1 y1 x2 y2 d E)
      as [[e H] | [[e H] | [h' [r3 H]]]]; rewrite H; clear H.
    + reflexivity.
    + reflexivity.
    + cbn [fst app unheld]. rewrite unheld_loop; [reflexivity |].
      apply loop_off_button.
  - rewrite (run_without_drag dd bd steps button env h E). reflexivity.
Qed.

(** How a run ends, read off the calls that raised. *)
Lemma run_verdict dd bd steps button env h :
  (raises (fst (run_single_hold dd bd steps button env h)) = [] /\
   snd (run_single_hold dd bd steps button env h) = inr tt) \/
  (exists pre e,
     raises (fst (run_single_hold dd bd steps button env h)) = pre ++ [e] /\
     snd (run_single_hold dd bd steps button env h) = inl e).
Proof.
  destruct (first_drag steps) as [[[[[x1 y1] x2] y2] d] |] eqn:E.
  - destruct (run_anatomy dd bd steps button env h x1 y1 x2 y2 d E)
      as [[e H] | [[e H] | [h' [r3 H]]]]; rewrite H; clear H.
    + right. exists [], e. split; reflexivity.
    + right. exists [], e. split; reflexivity.
    + cbn [fst snd]. rewrite !raises_app.
      destruct (loop_follows dd bd steps (x1, y1, 0) env h')
        as [[Hr Ht] | [e [Hr Ht]]]; rewrite Hr; [rewrite Ht |].
      * rewrite loop_script_quiet. destruct r3 as [e3 |].
        -- right. exists [], e3. split; reflexivity.
        -- left. split; reflexivity.
      * destruct (truncated_raises _ _ e (loop_script_quiet dd bd steps _) Ht) as [Ha _].
        rewrite Ha. right. destruct r3 as [e3 |].
        -- exists [e], e3. split; reflexivity.
        -- exists [], e. split; reflexivity.
  - rewrite (run_without_drag dd bd steps button env h E). left. split; reflexivity.
Qed.

(** A run leaves with the exception of the last call that raised, and
    returns normally when none did: an exception of the release call
    replaces the one that ended the loop. *)
Theorem run_raises_last_exception dd bd steps button env h :
  snd (run_single_hold dd bd steps button env h) =
    last (map inl (raises (fst (run_single_hold dd bd steps button env h)))) (inr tt).
Proof.
  destruct (run_verdict dd bd steps button env h) as [[Hq Hr] | [pre [e [Hq Hr]]]];
    rewrite Hr, Hq.
  - reflexivity.
  - rewrite map_app. simpl. rewrite last_last. reflexivity.
Qed.

Lemma loop_count_pressed dd bd steps st env h :
  count pressed (fst (loop dd bd steps st env h)) = 0.
Proof.
  apply count_zero. eapply Forall_impl; [| apply loop_off_button].
  intros e [_ H]. destruct e as [m | [ | | | ] [x |]]; simpl in *; congruence.
Qed.

(** A run releases the button as often as it got it down: once or never. *)
Lemma run_balance dd bd steps button env h :
  count is_release (fst (run_single_hold dd bd steps button env h)) =
    count pressed (fst (run_single_hold dd bd steps button env h)) /\
  count pressed (fst (run_single_hold dd bd steps button env h)) <= 1.
Proof.
  destruct (first_drag steps) as [[[[[x1 y1] x2] y2] d] |] eqn:E.
  - destruct (run_anatomy dd bd steps button env h x1 y1 x2 y2 d E)
      as [[e H] | [[e H] | [h' [r3 H]]]]; rewrite H; clear H.
    + split; [reflexivity | apply Nat.le_0_l].
    + split; [reflexivity | apply Nat.le_0_l].
    + cbn [fst]. rewrite !count_app, loop_count_release, loop_count_pressed.
      split; [reflexivity | apply Nat.le_refl].
  - rewrite (run_without_drag dd bd steps button env h E).
    split; [reflexivity | apply Nat.le_0_l].
Qed.

End ExecLaws.
Import ExecLaws.

(** * Laws of the program *)

Module MainLaws.

Import Cli.
Local Open Scope list_scope.
Local Open Scope nat_scope.

Lemma ran_app a b : ran (a ++ b) = ran a ++ ran b.
Proof. apply flat_map_app. Qed.

Lemma ran_map t : ran (map Ran t) = t.
Proof. induction t as [| e t IH]; simpl; [| rewrite IH]; reflexivity. Qed.

Lemma parse_lines_raise path lines : forall idx acc e,
  parse_lines path idx lines acc = inl e -> exists msg, e = ValueError msg.
Proof.
  induction lines as [| raw rest IH]; intros idx acc e H; simpl in H; [discriminate |].
  destruct (parse_line path idx raw) as [| s | e'] eqn:E; eauto.
  inversion H; subst e'.
  destruct (parse_line_raise path idx raw e E) as [-> | [[kw [tok [_ ->]]] | ->]]; eauto.
Qed.

(** The events of the program when the steps were read and the start
    delay returned: the start delay, then the run. *)
Lemma ran_played a (steps : list step) t tail :
  ran tail = [] ->
  ran (([Notice Banner; Notice FailsafeHint; Notice (Reading (file a))] ++
        [Notice (Loaded (List.length steps) (start_delay a));
         Ran (Called (sleep (start_delay a)) None)] ++ map Ran t) ++ tail) =
  Called (sleep (start_delay a)) None :: t.
Proof.
  intros Ht. rewrite !ran_app, ran_map, Ht, app_nil_r. reflexivity.
Qed.

(** A file that cannot be parsed makes the program print the error and
    exit with status 1, before the start delay and before any call of the
    backend: the pointer is not touched. *)
Theorem unparsable_file_exits_with_1 a content e env :
  parse_file (file a) content = inl e ->
  main a (inr content) env =
    ([Notice Banner; Notice FailsafeHint; Notice (Reading (file a)); Notice (Error e)],
     Exited 1).
Proof.
  intros H. unfold main. rewrite H.
  destruct (parse_lines_raise _ _ _ _ _ H) as [msg ->]. reflexivity.
Qed.

Lemma unparsable_file_exits_with_1_witness :
  main defaults (inr "1,2 > 3,4") undisturbed =
    ([Notice Banner; Notice FailsafeHint; Notice (Reading "motions.txt");
      Notice (Error (ValueError (msg_invalid_line "motions.txt" 1 "1,2 > 3,4")))],
     Exited 1).
Proof.
  apply (unparsable_file_exits_with_1 defaults "1,2 > 3,4"
           (ValueError (msg_invalid_line "motions.txt" 1 "1,2 > 3,4")) undisturbed).
  reflexivity.
Defined.

(** The first call of the program, if it makes any, is the start delay,
    and that call is not guarded: an exception it raises, an interrupt
    included, leaves the program uncaught and nothing more is done.  The
    program makes no call at all only when the steps could not be read. *)
Theorem start_delay_comes_first a source env :
  match ran (fst (main a source env)) with
  | [] => snd (main a source env) = Exited 1 \/
          snd (main a source env) = Propagated KeyboardInterrupt
  | first :: rest =>
      exists r, first = Called (sleep (start_delay a)) r /\
                match r with
                | Some e => rest = [] /\ snd (main a source env) = Propagated e
                | None => True
                end
  end.
Proof.
  unfold main.
  destruct (match source with inl e => inl e | inr content => parse_file (file a) content end)
    as [e | steps].
  - destruct e; simpl; auto.
  - destruct (env [] (sleep (start_delay a))) as [e |] eqn:Hs.
    + simpl. exists (Some e). auto.
    + destruct (run_single_hold _ _ steps (button a) env _) as [t r].
      destruct r as [[msg | | | msg] | []]; cbn [fst snd].
      * rewrite <- (app_nil_r (_ ++ _ ++ map Ran t)). rewrite ran_played by reflexivity.
        exists None. auto.
      * rewrite ran_played by reflexivity. exists None. auto.
      * rewrite ran_played by reflexivity. exists None. auto.
      * rewrite <- (app_nil_r (_ ++ _ ++ map Ran t)). rewrite ran_played by reflexivity.
        exists None. auto.
      * rewrite ran_played by reflexivity. exists None. auto.
Qed.

(** Whatever happens, the program calls the release as often as the
    press returned, and that is at most once: it never ends with the
    button down unless the release itself failed. *)
Theorem program_releases_what_it_pressed a source env :
  count is_release (ran (fst (main a source env))) =
    count pressed (ran (fst (main a source env))) /\
  count pressed (ran (fst (main a source env))) <= 1.
Proof.
  unfold main.
  destruct (match source with inl e => inl e | inr content => parse_file (file a) content end)
    as [e | steps].
  - destruct e; simpl; split; auto.
  - destruct (env [] (sleep (start_delay a))) as [e |] eqn:Hs.
    + simpl. split; auto.
    + pose proof (run_balance (default_duration a) (between_delay a) steps (button a) env
                    [Called (sleep (start_delay a)) None]) as Hb.
      destruct (run_single_hold _ _ steps (button a) env _) as [t r].
      cbn [fst] in Hb.
      assert (G : forall out (o : outcome), ran out = Called (sleep (start_delay a)) None :: t ->
                count is_release (ran (fst (out, o))) = count pressed (ran (fst (out, o))) /\
                count pressed (ran (fst (out, o))) <= 1).
      { intros out o Ho. cbn [fst]. rewrite Ho. exact Hb. }
      destruct r as [[msg | | | msg] | []]; apply G.
      * rewrite <- (app_nil_r (_ ++ _ ++ map Ran t)). apply ran_played. reflexivity.
      * apply ran_played. reflexivity.
      * apply ran_played. reflexivity.
      * rewrite <- (app_nil_r (_ ++ _ ++ map Ran t)). apply ran_played. reflexivity.
      * apply ran_played. reflexivity.
Qed.

(** When the steps were read and the start delay returned, the way the
    program ends is decided by the last call that raised.  None: it prints
    Done and returns.  The failsafe exception or an interrupt: it prints
    the matching abort notice and returns.  Any other exception leaves the
    program uncaught. *)
Theorem program_reports_the_abort a content steps env :
  parse_file (file a) content = inr steps ->
  env [] (sleep (start_delay a)) = None ->
  match last (map Some (raises (ran (fst (main a (inr content) env))))) None with
  | None =>
      snd (main a (inr content) env) = Returned /\
      last (fst (main a (inr content) env)) (Notice Banner) = Notice Done
  | Some FailSafeException =>
      snd (main a (inr content) env) = Returned /\
      last (fst (main a (inr content) env)) (Notice Banner) = Notice AbortedFailsafe
  | Some KeyboardInterrupt =>
      snd (main a (inr content) env) = Returned /\
      last (fst (main a (inr content) env)) (Notice Banner) = Notice AbortedByUser
  | Some e => snd (main a (inr content) env) = Propagated e
  end.
Proof.
  intros Hp Hs. unfold main. rewrite Hp, Hs.
  pose proof (run_verdict (default_duration a) (between_delay a) steps (button a) env
                [Called (sleep (start_delay a)) None]) as Hv.
  destruct (run_single_hold _ _ steps (button a) env _) as [t r].
  cbn [fst snd] in Hv.
  destruct Hv as [[Hq ->] | [pre [e [Hq ->]]]].
  - cbn [fst snd]. rewrite ran_played by reflexivity.
    change (raises (Called (sleep (start_delay a)) None :: t)) with (raises t).
    rewrite Hq. split; [reflexivity | apply last_last].
  - destruct e as [msg | | | msg]; cbn [fst snd].
    + rewrite <- (app_nil_r (_ ++ _ ++ map Ran t)). rewrite ran_played by reflexivity.
      change (raises (Called (sleep (start_delay a)) None :: t)) with (raises t).
      rewrite Hq, map_app. simpl. rewrite last_last. reflexivity.
    + rewrite ran_played by reflexivity.
      change (raises (Called (sleep (start_delay a)) None :: t)) with (raises t).
      rewrite Hq, map_app. simpl map. rewrite !last_last. split; reflexivity.
    + rewrite ran_played by reflexivity.
      change (raises (Called (sleep (start_delay a)) None :: t)) with (raises t).
      rewrite Hq, map_app. simpl map. rewrite !last_last. split; reflexivity.
    + rewrite <- (app_nil_r (_ ++ _ ++ map Ran t)). rewrite ran_played by reflexivity.
      change (raises (Called (sleep (start_delay a)) None :: t)) with (raises t).
      rewrite Hq, map_app. simpl. rewrite last_last. reflexivity.
Qed.

Lemma program_reports_the_abort_witness :
  snd (main defaults (inr example_content) interrupt_moves) = Returned /\
  last (fst (main defaults (inr example_content) interrupt_moves)) (Notice Banner) =
    Notice AbortedByUser.
Proof.
  exact (program_reports_the_abort defaults example_content example_steps interrupt_moves
           eq_refl eq_refl).
Defined.

End MainLaws.
